(** * Dual-model translation merge engine (nyc-dubbing-qa backend)

    A shallow embedding of
      backend/src/services/translation.service.ts   (class TranslationService)
      backend/src/controllers/translation.controller.ts (translateVideo)
    and the properties of the merge engine that the specification states.
    The earlier variant of the service, with Gemini as second provider, has
    the same [mergeTranslations] and [verifyTranslation] up to the label of
    the second provider.

    Conventions of the embedding.
    - A JavaScript string is the list of its UTF-16 code units ([jsstring]).
    - A JavaScript number is modelled by an exact rational ([Q]).  Every
      number the merge engine compares is either a decimal literal of the
      source or a quotient of two set sizes; for sizes below 2^49 the IEEE
      comparison of such a quotient with the literals 0.9 and 0.7 agrees
      with the comparison of the exact rationals, so the branches taken are
      those of the source.
    - [String.prototype.toLowerCase] and [toUpperCase] are Unicode tables of
      the runtime; they are parameters of the development, instantiated by
      the ASCII mapping in the concrete examples.
      The duration estimate is the exact value of its formula, which the
      double of the source approximates.
    - An [async] function is a tree of type [Async]: it returns, throws, or
      awaits the completion of a request sent to the model API.  Logging is
      left out: it neither changes a result nor throws on typed inputs. *)

From Stdlib Require Import QArith Lqa String Ascii.
From Equations Require Import Equations.
From stdpp Require Import base decidable list gmap sets.

Local Open Scope Q_scope.

(** ** JavaScript strings *)

Definition jsstring := list N.

(** The code units of an ASCII literal. *)
Definition js (s : String.string) : jsstring :=
  List.map N_of_ascii (list_ascii_of_string s).

(** ECMAScript WhiteSpace and LineTerminator code points: the class [\s] of
    regular expressions and the characters removed by [trim]. *)
Definition isWhiteSpace (c : N) : bool :=
  ((9 <=? c) && (c <=? 13) || (c =? 32) || (c =? 160) || (c =? 5760)
   || (8192 <=? c) && (c <=? 8202) || (c =? 8232) || (c =? 8233)
   || (c =? 8239) || (c =? 8287) || (c =? 12288) || (c =? 65279))%N.

Fixpoint trimStart (s : jsstring) : jsstring :=
  match s with
  | c :: r => if isWhiteSpace c then trimStart r else s
  | [] => []
  end.

Definition trimEnd (s : jsstring) : jsstring := rev (trimStart (rev s)).

(** [s.trim()] *)
Definition trim (s : jsstring) : jsstring := trimEnd (trimStart s).

(** [s.split(/\s+/)]: the fields between maximal runs of white space.  [cur]
    is the field being read, in reverse; [inGap] tells that the previous code
    unit was white space.  The result is never empty: the empty string has
    the single field [""], and white space at either end of the string
    leaves an empty field there. *)
Fixpoint splitFrom (cur : jsstring) (inGap : bool) (s : jsstring) : list jsstring :=
  match s with
  | [] => [rev cur]
  | c :: r =>
      if isWhiteSpace c
      then (if inGap then splitFrom [] true r else rev cur :: splitFrom [] true r)
      else splitFrom (c :: cur) false r
  end.

Definition split (s : jsstring) : list jsstring := splitFrom [] false s.

(** ASCII case mappings, the restriction of the runtime's tables to code
    units below 128 (other code units are left alone). *)
Definition asciiLower (s : jsstring) : jsstring :=
  List.map (fun c => if ((65 <=? c) && (c <=? 90))%N then (c + 32)%N else c) s.

Definition asciiUpper (s : jsstring) : jsstring :=
  List.map (fun c => if ((97 <=? c) && (c <=? 122))%N then (c - 32)%N else c) s.

(** ** JavaScript [Set] of strings: insertion-ordered, without duplicates *)

Definition JsSet := list jsstring.

Definition setAdd (s : JsSet) (x : jsstring) : JsSet :=
  if decide (x ∈ s) then s else s ++ [x].

(** [new Set(iterable)] *)
Definition newSet (l : list jsstring) : JsSet := fold_left setAdd l [].

(** A count ([.size], [.length]) as a JavaScript number. *)
Definition num (n : nat) : Q := inject_Z (Z.of_nat n).

(** JavaScript comparison [x > y] on numbers. *)
Definition Qgtb (x y : Q) : bool := negb (Qle_bool x y).
Infix ">?" := Qgtb (at level 70, no associativity) : Q_scope.

(** [o || d] for an optional string: [undefined], [null] and [""] are falsy. *)
Definition orString (o : option jsstring) (d : jsstring) : jsstring :=
  match o with
  | Some (c :: r) => c :: r
  | _ => d
  end.

(** [o || d] for an optional number: [undefined] and [0] are falsy. *)
Definition orNumber (o : option Q) (d : Q) : Q :=
  match o with
  | Some x => if Qeq_bool x 0 then d else x
  | None => d
  end.

(** Property lookup [obj[key]] in an object literal with string keys, kept as
    the list of its entries in source order ([None] for [undefined]; only the
    literal's own properties are looked up). *)
Fixpoint property {V : Type} (obj : list (jsstring * V)) (key : jsstring) : option V :=
  match obj with
  | [] => None
  | (k, v) :: rest => if decide (k = key) then Some v else property rest key
  end.

(** ** Data model (the interfaces of translation.service.ts) *)

Record TranslationContext := {
  speaker : option jsstring;
  tone : option jsstring;
  domain : option jsstring;
  description : option jsstring;
  previousSegments : option (list jsstring)
}.

Record TranslationSegment := {
  id : Z;
  text : jsstring;
  startTime : Q;
  endTime : Q
}.

Record ResultMetadata := {
  wordCount : nat;
  estimatedDuration : option Q;
  warnings : option (list jsstring)
}.

Record TranslationResult := {
  translatedText : jsstring;
  confidence : Q;
  model : jsstring;
  metadata : option ResultMetadata
}.

(** The three values the source assigns to [mergeStrategy]. *)
Inductive MergeStrategy := high_agreement | verified_selection | low_agreement_flagged.

Record MergedMetadata := {
  gpt4Result : TranslationResult;
  geminiResult : TranslationResult;
  mergeStrategy : MergeStrategy
}.

Record MergedTranslation := {
  m_text : jsstring;
  m_confidence : Q;
  primaryModel : jsstring;
  comparisonScore : Q;
  m_metadata : MergedMetadata
}.

(** The object returned by [verifyTranslation]. *)
Record Verification := {
  preferredTranslation : jsstring;
  preferredModel : jsstring;
  v_confidence : Q
}.

(** ** Calls to the model API *)

(** The variable parts of the system prompt of [buildContextPrompt]; the rest
    of its text is a fixed template. *)
Record ContextPrompt := {
  p_speaker : jsstring;
  p_tone : jsstring;
  p_domain : jsstring;
  p_description : jsstring;
  p_targetLanguage : jsstring
}.

(** The messages of a request: each is a fixed template of the source filled
    with the values listed here (a translation request interpolates the
    target language, the segment's duration and its text). *)
Inductive Messages :=
| TranslateMessages (contextPrompt : ContextPrompt) (targetLanguage : jsstring)
    (segment : TranslationSegment)
| VerifyMessages (originalText gpt4Translation gpt4TurboTranslation targetLanguage : jsstring).

(** The argument of [openai.chat.completions.create]. *)
Record Request := {
  r_model : jsstring;
  messages : Messages;
  temperature : Q;
  max_tokens : N
}.

Inductive JsError :=
| ApiError (message : jsstring)
| TypeError.

(** How a request settles: the promise rejects, or resolves to a completion
    whose [choices] carry a message content each ([None] for [null]). *)
Inductive Completion :=
| Rejected (e : JsError)
| Resolved (choices : list (option jsstring)).

(** ** Asynchronous computations *)

Inductive Async (A : Type) : Type :=
| Return (a : A)
| Throw (e : JsError)
| Await (r : Request) (k : Completion -> Async A)
| AwaitBoth (r1 r2 : Request) (k : Completion -> Completion -> Async A).

Arguments Return {A} a.
Arguments Throw {A} e.
Arguments Await {A} r k.
Arguments AwaitBoth {A} r1 r2 k.

Fixpoint bind {A B : Type} (p : Async A) (f : A -> Async B) : Async B :=
  match p with
  | Return a => f a
  | Throw e => Throw e
  | Await r k => Await r (fun c => bind (k c) f)
  | AwaitBoth r1 r2 k => AwaitBoth r1 r2 (fun c1 c2 => bind (k c1 c2) f)
  end.

Declare Scope async_scope.
Delimit Scope async_scope with async.
Notation "x <- p ;; q" := (bind p (fun x => q))
  (at level 100, p at next level, right associativity) : async_scope.
Local Open Scope async_scope.

(** [try { p } catch (error) { handler(error) }] *)
Fixpoint tryCatch {A : Type} (p : Async A) (handler : JsError -> Async A) : Async A :=
  match p with
  | Return a => Return a
  | Throw e => handler e
  | Await r k => Await r (fun c => tryCatch (k c) handler)
  | AwaitBoth r1 r2 k => AwaitBoth r1 r2 (fun c1 c2 => tryCatch (k c1 c2) handler)
  end.

(** [await this.openai.chat.completions.create(r)] *)
Definition create (r : Request) : Async (list (option jsstring)) :=
  Await r (fun c =>
    match c with
    | Rejected e => Throw e
    | Resolved choices => Return choices
    end).

(** [completion.choices[0].message.content]: reading [.message] of a
    missing first choice throws a TypeError. *)
Definition firstContent (choices : list (option jsstring)) : Async (option jsstring) :=
  match choices with
  | content :: _ => Return content
  | [] => Throw TypeError
  end.

(** [await Promise.all([p, q])] for two async functions that each await one
    request: both requests are sent before either completion is looked at.
    When both fail the runtime reports whichever rejection arrives first;
    here the first operand's is reported.  Operands of another shape do not
    occur in the service; they are run one after the other. *)
Definition promiseAll2 {A B : Type} (p : Async A) (q : Async B) : Async (A * B) :=
  match p, q with
  | Await r1 k1, Await r2 k2 =>
      AwaitBoth r1 r2 (fun c1 c2 => a <- k1 c1 ;; b <- k2 c2 ;; Return (a, b))
  | _, _ => a <- p ;; b <- q ;; Return (a, b)
  end.

(** *** Running a computation against the model API *)

Inductive Outcome (A : Type) : Type :=
| Fulfilled (a : A)
| Raised (e : JsError).

Arguments Fulfilled {A} a.
Arguments Raised {A} e.

Definition Event : Type := Request * Completion.

Record Run (W A : Type) := {
  outcome : Outcome A;
  calls : list Event;
  world : W
}.

Arguments outcome {W A} r.
Arguments calls {W A} r.
Arguments world {W A} r.

(** The run [r2] continuing the run [r1]. *)
Definition after {W A B : Type} (r1 : Run W A) (r2 : Run W B) : Run W B :=
  {| outcome := outcome r2; calls := calls r1 ++ calls r2; world := world r2 |}.

Definition called {W A : Type} (e : Event) (r : Run W A) : Run W A :=
  {| outcome := outcome r; calls := e :: calls r; world := world r |}.

(** The API is any state machine answering requests; [run] feeds its answers
    to the computation and records the requests in the order they are sent. *)
Fixpoint run {W A : Type} (api : W -> Request -> Completion * W) (p : Async A) (w : W)
  : Run W A :=
  match p with
  | Return a => {| outcome := Fulfilled a; calls := []; world := w |}
  | Throw e => {| outcome := Raised e; calls := []; world := w |}
  | Await r k =>
      let (c, w1) := api w r in
      called (r, c) (run api (k c) w1)
  | AwaitBoth r1 r2 k =>
      let (c1, w1) := api w r1 in
      let (c2, w2) := api w1 r2 in
      called (r1, c1) (called (r2, c2) (run api (k c1 c2) w2))
  end.

(** ** The translation service *)

(** [private languageMap] *)
Definition languageMap : list (jsstring * jsstring) :=
  [ (js "es", js "Spanish");
    (js "zh", js "Chinese (Mandarin)");
    (js "ru", js "Russian");
    (js "bn", js "Bengali");
    (js "ht", js "Haitian Creole");
    (js "ko", js "Korean");
    (js "ar", js "Arabic");
    (js "ur", js "Urdu");
    (js "fr", js "French");
    (js "pl", js "Polish") ].

(** The table [speechRates] of [estimateDuration] (words per minute). *)
Definition speechRates : list (jsstring * Q) :=
  [ (js "Spanish", 180);
    (js "Chinese", 160);
    (js "Russian", 184);
    (js "Bengali", 170);
    (js "Haitian Creole", 175);
    (js "Korean", 170);
    (js "Arabic", 165);
    (js "Urdu", 170);
    (js "French", 195);
    (js "Polish", 190) ].

(** [estimateDuration(text, language)] *)
Definition estimateDuration (text language : jsstring) : Q :=
  let wordsPerMinute := orNumber (property speechRates language) 175 in
  let wordCount := length (split text) in
  (num wordCount / wordsPerMinute) * 60.

(** [buildContextPrompt(context, targetLanguage)] *)
Definition buildContextPrompt (context : TranslationContext) (targetLanguage : jsstring)
  : ContextPrompt :=
  {| p_speaker := orString (speaker context) (js "NYC Government Official");
     p_tone := orString (tone context) (js "Formal, professional, authoritative");
     p_domain := orString (domain context) (js "Government/Public Service");
     p_description := orString (description context) (js "Official NYC government video content");
     p_targetLanguage := targetLanguage |}.

(** [content?.trim() || ''] *)
Definition trimmedOrEmpty (content : option jsstring) : jsstring :=
  match content with
  | Some c => trim c
  | None => []
  end.

(** The request object of the two translation calls; they differ in the
    sampling temperature only. *)
Definition translateRequest (temperature : Q) (segment : TranslationSegment)
    (targetLanguage : jsstring) (contextPrompt : ContextPrompt) : Request :=
  {| r_model := js "gpt-4-turbo-preview";
     messages := TranslateMessages contextPrompt targetLanguage segment;
     temperature := temperature;
     max_tokens := 500 |}.

(** The request object of the verification call. *)
Definition verifyRequest (originalText gpt4Translation gpt4TurboTranslation
    targetLanguage : jsstring) : Request :=
  {| r_model := js "gpt-4-turbo-preview";
     messages := VerifyMessages originalText gpt4Translation gpt4TurboTranslation
                   targetLanguage;
     temperature := 0;
     max_tokens := 10 |}.

(** [translateWithGPT4(segment, targetLanguage, contextPrompt)] *)
Definition translateWithGPT4 (segment : TranslationSegment) (targetLanguage : jsstring)
    (contextPrompt : ContextPrompt) : Async TranslationResult :=
  tryCatch
    (completion <- create (translateRequest 0.3 segment targetLanguage contextPrompt) ;;
     content <- firstContent completion ;;
     let translatedText := trimmedOrEmpty content in
     let wordCount := length (split translatedText) in
     let estimatedDuration := estimateDuration translatedText targetLanguage in
     Return {| translatedText := translatedText;
               confidence := 0.9;
               model := js "gpt-4";
               metadata := Some {| wordCount := wordCount;
                                   estimatedDuration := Some estimatedDuration;
                                   warnings := None |} |})
    (fun error => Throw error).

(** [translateWithGPT4Turbo(segment, targetLanguage, contextPrompt)] *)
Definition translateWithGPT4Turbo (segment : TranslationSegment) (targetLanguage : jsstring)
    (contextPrompt : ContextPrompt) : Async TranslationResult :=
  tryCatch
    (completion <- create (translateRequest 0.5 segment targetLanguage contextPrompt) ;;
     content <- firstContent completion ;;
     let translatedText := trimmedOrEmpty content in
     let wordCount := length (split translatedText) in
     let estimatedDuration := estimateDuration translatedText targetLanguage in
     Return {| translatedText := translatedText;
               confidence := 0.85;
               model := js "gpt-4-turbo";
               metadata := Some {| wordCount := wordCount;
                                   estimatedDuration := Some estimatedDuration;
                                   warnings := None |} |})
    (fun error => Throw error).

(** [String.prototype.toLowerCase] and [toUpperCase] of the runtime. *)
Class CaseMapping := {
  toLowerCase : jsstring -> jsstring;
  toUpperCase : jsstring -> jsstring
}.

Section Service.

Context {caseMapping : CaseMapping}.

(** [calculateSimilarity(text1, text2)] *)
Definition calculateSimilarity (text1 text2 : jsstring) : Q :=
  let words1 := split (toLowerCase text1) in
  let words2 := split (toLowerCase text2) in
  let set1 := newSet words1 in
  let set2 := newSet words2 in
  let intersection := newSet (filter (fun x => x ∈ set2) set1) in
  let union := newSet (set1 ++ set2) in
  num (length intersection) / num (length union).

(** [verifyTranslation(originalText, gpt4Translation, gpt4TurboTranslation,
    targetLanguage)].  [choice] is [undefined] ([None]) for a [null]
    content. *)
Definition verifyTranslation (originalText gpt4Translation gpt4TurboTranslation
    targetLanguage : jsstring) : Async Verification :=
  tryCatch
    (completion <- create (verifyRequest originalText gpt4Translation gpt4TurboTranslation
                           targetLanguage) ;;
     content <- firstContent completion ;;
     let choice := option_map (fun c => toUpperCase (trim c)) content in
     if decide (choice = Some (js "A"))
     then Return {| preferredTranslation := gpt4Translation;
                    preferredModel := js "gpt-4";
                    v_confidence := 0.85 |}
     else Return {| preferredTranslation := gpt4TurboTranslation;
                    preferredModel := js "gpt-4-turbo";
                    v_confidence := 0.85 |})
    (fun error =>
       Return {| preferredTranslation := gpt4Translation;
                 preferredModel := js "gpt-4";
                 v_confidence := 0.75 |}).

(** [mergeTranslations(segment, gpt4Result, gpt4TurboResult, targetLanguage)] *)
Definition mergeTranslations (segment : TranslationSegment)
    (gpt4Result gpt4TurboResult : TranslationResult) (targetLanguage : jsstring)
  : Async MergedTranslation :=
  let similarity :=
    calculateSimilarity (translatedText gpt4Result) (translatedText gpt4TurboResult) in
  selected <-
    (if similarity >? 0.9 then
       Return (translatedText gpt4Result, js "gpt-4", 0.95, high_agreement)
     else if similarity >? 0.7 then
       verification <- verifyTranslation (text segment) (translatedText gpt4Result)
                         (translatedText gpt4TurboResult) targetLanguage ;;
       Return (preferredTranslation verification, preferredModel verification,
               v_confidence verification, verified_selection)
     else
       Return (translatedText gpt4Result, js "gpt-4", 0.7, low_agreement_flagged)) ;;
  let '(finalTranslation, primaryModel, confidence, mergeStrategy) := selected in
  Return {| m_text := finalTranslation;
            m_confidence := confidence;
            primaryModel := primaryModel;
            comparisonScore := similarity;
            m_metadata := {| gpt4Result := gpt4Result;
                             geminiResult := gpt4TurboResult;
                             mergeStrategy := mergeStrategy |} |}.

(** The body of the [for] loop of [translateWithContext] for one segment:
    both translations in parallel, then the merge. *)
Definition translateSegment (segment : TranslationSegment) (targetLanguage : jsstring)
    (contextPrompt : ContextPrompt) : Async MergedTranslation :=
  tryCatch
    (both <- promiseAll2 (translateWithGPT4 segment targetLanguage contextPrompt)
               (translateWithGPT4Turbo segment targetLanguage contextPrompt) ;;
     let '(gpt4Result, gpt4TurboResult) := both in
     mergeTranslations segment gpt4Result gpt4TurboResult targetLanguage)
    (fun error => Throw error).

(** [for (const segment of segments) { ... results.push(merged) }] *)
Fixpoint translateLoop (segments : list TranslationSegment) (targetLanguage : jsstring)
    (contextPrompt : ContextPrompt) (results : list MergedTranslation)
  : Async (list MergedTranslation) :=
  match segments with
  | [] => Return results
  | segment :: rest =>
      merged <- translateSegment segment targetLanguage contextPrompt ;;
      translateLoop rest targetLanguage contextPrompt (results ++ [merged])
  end.

(** [translateWithContext(segments, targetLanguageCode, context)] *)
Definition translateWithContext (segments : list TranslationSegment)
    (targetLanguageCode : jsstring) (context : TranslationContext)
  : Async (list MergedTranslation) :=
  let targetLanguage := orString (property languageMap targetLanguageCode) targetLanguageCode in
  let contextPrompt := buildContextPrompt context targetLanguage in
  translateLoop segments targetLanguage contextPrompt [].

(** [array.slice(start, stop)] for indices within [0, 2^53). *)
Definition slice {A : Type} (l : list A) (start stop : nat) : list A :=
  take (stop - start) (drop start l).

Definition batchSize : nat := 5.

(** [for (let i = 0; i < segments.length; i += batchSize) { ... }] of
    [batchTranslate], entered at index [i] with the accumulated [results]. *)
Equations? batchLoop (segments : list TranslationSegment) (targetLanguageCode : jsstring)
    (context : TranslationContext) (i : nat) (results : list MergedTranslation)
  : Async (list MergedTranslation) by wf (length segments - i)%nat lt :=
  batchLoop segments targetLanguageCode context i results
    with decide (i < length segments)%nat := {
    | left _ =>
        let batch := slice segments i (i + batchSize) in
        batchResults <- translateWithContext batch targetLanguageCode context ;;
        batchLoop segments targetLanguageCode context (i + batchSize)%nat
          (results ++ batchResults)
    | right _ => Return results }.
Proof. unfold batchSize. lia. Qed.

(** [batchTranslate(segments, targetLanguageCode, context)] *)
Definition batchTranslate (segments : list TranslationSegment)
    (targetLanguageCode : jsstring) (context : TranslationContext)
  : Async (list MergedTranslation) :=
  batchLoop segments targetLanguageCode context 0 [].

(** *** The controller [translateVideo] *)

(** The fields of [req.body] that [translateVideo] reads.  [None] stands
    for an absent value and, for [segments], also for a value that is not
    an array. *)
Record TranslateBody := {
  body_targetLanguage : option jsstring;
  body_context : option TranslationContext;
  body_segments : option (list TranslationSegment)
}.

Inductive QaStatus := approved | needs_review | flagged.

(** [trans.confidence > 0.9 ? 'approved' :
     trans.confidence > 0.8 ? 'needs-review' : 'flagged'] *)
Definition qaStatus (confidence : Q) : QaStatus :=
  if confidence >? 0.9 then approved
  else if confidence >? 0.8 then needs_review
  else flagged.

Record FormattedTranslation := {
  f_id : Z;
  f_originalText : jsstring;
  f_translatedText : jsstring;
  f_confidence : Q;
  f_primaryModel : jsstring;
  f_comparisonScore : Q;
  f_qaStatus : QaStatus;
  f_gpt4 : jsstring;
  f_gemini : jsstring;
  f_mergeStrategy : MergeStrategy;
  f_estimatedDuration : option Q
}.

(** The response of [translateVideo]: status 400, the translations (of the
    data sent with status 200, the segment count and the formatted
    translations are kept), or status 500. *)
Inductive Response :=
| BadRequest
| Translated (segmentCount : nat) (translations : list FormattedTranslation)
| ServerError.

(** [translations.map((trans, index) => ({ ... }))], from [index] on;
    reading a property of a missing [segments[index]] throws. *)
Fixpoint formatTranslations (segments : list TranslationSegment) (index : nat)
    (translations : list MergedTranslation) : Async (list FormattedTranslation) :=
  match translations with
  | [] => Return []
  | trans :: rest =>
      match segments !! index with
      | None => Throw TypeError
      | Some segment =>
          formatted <- formatTranslations segments (S index) rest ;;
          Return ({| f_id := id segment;
                     f_originalText := text segment;
                     f_translatedText := m_text trans;
                     f_confidence := m_confidence trans;
                     f_primaryModel := primaryModel trans;
                     f_comparisonScore := comparisonScore trans;
                     f_qaStatus := qaStatus (m_confidence trans);
                     f_gpt4 := translatedText (gpt4Result (m_metadata trans));
                     f_gemini := translatedText (geminiResult (m_metadata trans));
                     f_mergeStrategy := mergeStrategy (m_metadata trans);
                     f_estimatedDuration :=
                       match metadata (gpt4Result (m_metadata trans)) with
                       | Some md => estimatedDuration md
                       | None => None
                       end |} :: formatted)
      end
  end.

Definition emptyContext : TranslationContext :=
  {| speaker := None; tone := None; domain := None; description := None;
     previousSegments := None |}.

(** [translateVideo]: the response sent for a request body.  A falsy
    [targetLanguage] ([undefined] or [""]) or missing [segments] gives
    status 400, anything thrown afterwards status 500. *)
Definition translateVideo (body : TranslateBody) : Async Response :=
  match body_targetLanguage body, body_segments body with
  | Some (c :: l), Some segments =>
      tryCatch
        (translations <- translateWithContext segments (c :: l)
                           (default emptyContext (body_context body)) ;;
         formattedTranslations <- formatTranslations segments 0 translations ;;
         Return (Translated (length formattedTranslations) formattedTranslations))
        (fun error => Return ServerError)
  | _, _ => Return BadRequest
  end.

End Service.

(** ** The similarity score in the words of the specification *)

Section Jaccard.

Context {caseMapping : CaseMapping}.

(** Lower-case the text and split it on white space into a token set. *)
Definition tokenSet (t : jsstring) : gset jsstring :=
  list_to_set (split (toLowerCase t)).


End Jaccard.

(** ** The merge regimes in the words of the specification *)

(** The regime of a similarity score: above 0.90 high agreement, above 0.70
    and up to 0.90 verified selection, up to 0.70 low agreement. *)
Definition regime (s : Q) : MergeStrategy :=
  if Qlt_le_dec 0.9 s then high_agreement
  else if Qlt_le_dec 0.7 s then verified_selection
  else low_agreement_flagged.

(** The code that awaits a request throws when the request is rejected or
    when the completion has no first choice to read. *)
Definition throws (c : Completion) : bool :=
  match c with
  | Rejected _ | Resolved [] => true
  | Resolved (_ :: _) => false
  end.

(** The reply of the arbiter as the source reads it: the content of the
    first choice, trimmed and upper-cased ([None] for a [null] content). *)
Definition arbiterChoice `{CaseMapping} (c : Completion) : option jsstring :=
  match c with
  | Resolved (Some content :: _) => Some (toUpperCase (trim content))
  | _ => None
  end.

(** The requests of the two translation providers, as opposed to the
    verification request. *)
Definition isTranslate (r : Request) : bool :=
  match messages r with
  | TranslateMessages _ _ _ => true
  | VerifyMessages _ _ _ _ => false
  end.

(** A merged translation [m] is a translation of [segment]: some run of the
    loop body of [translateWithContext] on that segment returns it. *)
Definition translates `{CaseMapping} {W : Type} (api : W -> Request -> Completion * W)
    (targetLanguage : jsstring) (contextPrompt : ContextPrompt)
    (segment : TranslationSegment) (m : MergedTranslation) : Prop :=
  exists w, outcome (run api (translateSegment segment targetLanguage contextPrompt) w)
            = Fulfilled m.

(** ** Invalid inputs in the words of the specification *)


(** A language code of the ten-entry map. *)
Definition supported (targetLanguageCode : jsstring) : bool :=
  bool_decide (is_Some (property languageMap targetLanguageCode)).


(** The translation requests among the calls of a run, in the order sent. *)
Definition translateRequests (events : list Event) : list Request :=
  List.filter isTranslate (List.map fst events).

(** The two requests sent for one segment. *)
Definition requestsFor (targetLanguage : jsstring) (contextPrompt : ContextPrompt)
    (segment : TranslationSegment) : list Request :=
  [translateRequest 0.3 segment targetLanguage contextPrompt;
   translateRequest 0.5 segment targetLanguage contextPrompt].

(** The text, label, confidence and strategy of a merged translation. *)
Definition selection (m : MergedTranslation) : jsstring * jsstring * Q * MergeStrategy :=
  (m_text m, primaryModel m, m_confidence m, mergeStrategy (m_metadata m)).

(** ** Concrete inputs for the examples *)

(** The case mappings on ASCII texts. *)
#[global] Instance asciiCase : CaseMapping :=
  {| toLowerCase := asciiLower; toUpperCase := asciiUpper |}.

(** An API that answers from a script, one completion per request, and fails
    every request once the script is used up. *)
Definition scripted (w : list Completion) (r : Request) : Completion * list Completion :=
  match w with
  | c :: rest => (c, rest)
  | [] => (Rejected (ApiError (js "script exhausted")), [])
  end.

(** A completion with one choice whose content is [s]. *)
Definition answer (s : String.string) : Completion := Resolved [Some (js s)].

Definition segment1 : TranslationSegment :=
  {| id := 1; text := js "Hello, citizens."; startTime := 0; endTime := 2 |}.

(** A result as [translateWithGPT4] builds it, without metadata. *)
Definition candidateA (t : String.string) : TranslationResult :=
  {| translatedText := js t; confidence := 0.9; model := js "gpt-4"; metadata := None |}.

(** A result as [translateWithGPT4Turbo] builds it, without metadata. *)
Definition candidateB (t : String.string) : TranslationResult :=
  {| translatedText := js t; confidence := 0.85; model := js "gpt-4-turbo";
     metadata := None |}.

Definition segment2 : TranslationSegment :=
  {| id := 2; text := js "We will invest fifty million dollars."; startTime := 2;
     endTime := 5 |}.

Definition segment3 : TranslationSegment :=
  {| id := 3; text := js "Thank you."; startTime := 5; endTime := 6 |}.


(** Scenario 3 of the specification: the second provider fails on the
    second of three segments. *)
Definition failingScript : list Completion :=
  [answer "Hola, ciudadanos."; answer "Hola, ciudadanos.";
   answer "Invertiremos cincuenta millones.";
   Rejected (ApiError (js "provider B unavailable"))].

(** Both providers agree on two segments. *)
Definition agreeingScript : list Completion :=
  [answer "Hola, ciudadanos."; answer "Hola, ciudadanos.";
   answer "Gracias."; answer "Gracias."].


(** ** Further definitions: the rest of the service and its callers *)

#[global] Instance MergeStrategy_eq_dec : EqDecision MergeStrategy.
Proof. solve_decision. Defined.

(** The number of results merged after a verification. *)
Definition verifiedCount (results : list MergedTranslation) : nat :=
  length (List.filter (fun m => bool_decide (mergeStrategy (m_metadata m) = verified_selection))
            results).

(** What every merged translation satisfies: the comparison score is the
    similarity of the two provider texts kept in the metadata, it lies
    between 0 and 1, and the confidence is one of four levels, each tied to
    a strategy. *)
Definition mergedInvariant `{CaseMapping} (m : MergedTranslation) : Prop :=
  comparisonScore m
  = calculateSimilarity (translatedText (gpt4Result (m_metadata m)))
      (translatedText (geminiResult (m_metadata m)))
  /\ 0 <= comparisonScore m <= 1
  /\ (m_confidence m = 0.95 /\ mergeStrategy (m_metadata m) = high_agreement
      \/ (m_confidence m = 0.85 \/ m_confidence m = 0.75)
         /\ mergeStrategy (m_metadata m) = verified_selection
      \/ m_confidence m = 0.7 /\ mergeStrategy (m_metadata m) = low_agreement_flagged).

(** A string that does not begin with white space. *)
Definition startsClean (s : jsstring) : Prop :=
  match s with
  | c :: _ => isWhiteSpace c = false
  | [] => True
  end.

(** A string with no white space at either end. *)
Definition trimmed (s : jsstring) : Prop := startsClean s /\ startsClean (rev s).

(** A word: a non-empty string without white space. *)
Definition isWord (s : jsstring) : Prop :=
  s <> [] /\ Forall (fun c => isWhiteSpace c = false) s.

(** The result object that a provider function returns for the content of
    the first choice of a completion. *)
Definition providerResult (label : jsstring) (base : Q) (targetLanguage : jsstring)
    (content : option jsstring) : TranslationResult :=
  {| translatedText := trimmedOrEmpty content;
     confidence := base;
     model := label;
     metadata :=
       Some {| wordCount := length (split (trimmedOrEmpty content));
               estimatedDuration :=
                 Some (estimateDuration (trimmedOrEmpty content) targetLanguage);
               warnings := None |} |}.

(** How a provider call ends for a given completion. *)
Definition providerOutcome (label : jsstring) (base : Q) (targetLanguage : jsstring)
    (c : Completion) : Outcome TranslationResult :=
  match c with
  | Rejected e => Raised e
  | Resolved [] => Raised TypeError
  | Resolved (content :: _) => Fulfilled (providerResult label base targetLanguage content)
  end.

(** A reply without text: the first choice has a [null] content or one made
    of white space only. *)
Definition blankReply (c : Completion) : Prop :=
  match c with
  | Resolved (content :: _) => trimmedOrEmpty content = []
  | _ => False
  end.

(** The content of the first choice of a completion ([None] when there is
    none to read or when it is [null]). *)
Definition firstChoice (c : Completion) : option jsstring :=
  match c with
  | Resolved (content :: _) => content
  | _ => None
  end.

(** An element of the list that [getSupportedLanguages] returns. *)
Record LanguageEntry := {
  code : jsstring;
  name : jsstring
}.

(** [getSupportedLanguages()]: [Object.entries] lists the properties of the
    map in the order of the literal. *)
Definition getSupportedLanguages : list LanguageEntry :=
  List.map (fun entry => {| code := entry.1; name := entry.2 |}) languageMap.

(** The fields of a formatted translation that come from its segment. *)
Definition formatsSegment (segment : TranslationSegment) (f : FormattedTranslation) : Prop :=
  f_id f = id segment /\ f_originalText f = text segment.

(** The fields of a formatted translation that come from the merged
    translation. *)
Definition formatsTranslation (trans : MergedTranslation) (f : FormattedTranslation) : Prop :=
  f_translatedText f = m_text trans
  /\ f_confidence f = m_confidence trans
  /\ f_primaryModel f = primaryModel trans
  /\ f_comparisonScore f = comparisonScore trans
  /\ f_qaStatus f = qaStatus (m_confidence trans)
  /\ f_gpt4 f = translatedText (gpt4Result (m_metadata trans))
  /\ f_gemini f = translatedText (geminiResult (m_metadata trans))
  /\ f_mergeStrategy f = mergeStrategy (m_metadata trans).


(** The four kinds of formatted translation: strategy, confidence and QA
    status go together. *)
Definition formattedLevel (f : FormattedTranslation) : Prop :=
  f_mergeStrategy f = high_agreement /\ f_confidence f = 0.95 /\ f_qaStatus f = approved
  \/ f_mergeStrategy f = verified_selection /\ f_confidence f = 0.85
     /\ f_qaStatus f = needs_review
  \/ f_mergeStrategy f = verified_selection /\ f_confidence f = 0.75
     /\ f_qaStatus f = flagged
  \/ f_mergeStrategy f = low_agreement_flagged /\ f_confidence f = 0.7
     /\ f_qaStatus f = flagged.

(** *** The review screen of the front end (App.tsx) *)

(** The values of [qaStatus] in the state of the review screen: the three
    strings of the controller and ['edited']. *)
Inductive RowStatus := row_approved | row_needs_review | row_flagged | row_edited.

#[global] Instance RowStatus_eq_dec : EqDecision RowStatus.
Proof. solve_decision. Defined.

(** The status string of the response, as the screen stores it. *)
Definition rowStatus (s : QaStatus) : RowStatus :=
  match s with
  | approved => row_approved
  | needs_review => row_needs_review
  | flagged => row_flagged
  end.

(** An element of the state [translations]. *)
Record Row := {
  r_id : Z;
  r_text : jsstring;
  r_translation : jsstring;
  r_confidence : Q;
  r_qaStatus : RowStatus;
  r_startTime : Q;
  r_endTime : Q;
  r_originalText : jsstring
}.

(** [transcription.find((t) => t.id === id)] *)
Definition findSegment (transcription : list TranslationSegment) (i : Z)
  : option TranslationSegment :=
  List.find (fun t => bool_decide (id t = i)) transcription.

(** [mappedTranslations] of [handleProceedToTranslation]: the rows made from
    the translations of the response. *)
Definition mappedTranslations (transcription : list TranslationSegment)
    (translations : list FormattedTranslation) : list Row :=
  List.map (fun trans =>
              {| r_id := f_id trans;
                 r_text := f_originalText trans;
                 r_translation := f_translatedText trans;
                 r_confidence := f_confidence trans;
                 r_qaStatus := rowStatus (f_qaStatus trans);
                 r_startTime :=
                   orNumber (option_map startTime (findSegment transcription (f_id trans))) 0;
                 r_endTime :=
                   orNumber (option_map endTime (findSegment transcription (f_id trans))) 0;
                 r_originalText := f_originalText trans |})
    translations.

(** [{ ...seg, qaStatus: status }] *)
Definition withStatus (status : RowStatus) (seg : Row) : Row :=
  {| r_id := r_id seg;
     r_text := r_text seg;
     r_translation := r_translation seg;
     r_confidence := r_confidence seg;
     r_qaStatus := status;
     r_startTime := r_startTime seg;
     r_endTime := r_endTime seg;
     r_originalText := r_originalText seg |}.

(** [{ ...seg, translation: newTranslation }] *)
Definition withTranslation (newTranslation : jsstring) (seg : Row) : Row :=
  {| r_id := r_id seg;
     r_text := r_text seg;
     r_translation := newTranslation;
     r_confidence := r_confidence seg;
     r_qaStatus := r_qaStatus seg;
     r_startTime := r_startTime seg;
     r_endTime := r_endTime seg;
     r_originalText := r_originalText seg |}.

(** The state update of [handleTranslationEdit(segmentId, newTranslation)]. *)
Definition handleTranslationEdit (segmentId : Z) (newTranslation : jsstring)
    (prev : list Row) : list Row :=
  List.map (fun seg =>
              if bool_decide (r_id seg = segmentId)
              then withStatus row_edited (withTranslation newTranslation seg)
              else seg)
    prev.

(** The state after [handleApproveSegment(segmentId)]: nothing happens
    without a video id or when the call to the QA endpoint fails
    ([approved] tells that it succeeded). *)
Definition handleApproveSegment (videoId : option jsstring) (approved : bool)
    (segmentId : Z) (prev : list Row) : list Row :=
  match videoId with
  | Some (_ :: _) =>
      if approved
      then List.map (fun seg =>
                       if bool_decide (r_id seg = segmentId)
                       then withStatus row_approved seg
                       else seg)
             prev
      else prev
  | _ => prev
  end.

(** [disabled={translations.some(s => s.qaStatus !== 'approved')}] of the
    Generate Audio button. *)
Definition generateDisabled (translations : list Row) : bool :=
  existsb (fun s => negb (bool_decide (r_qaStatus s = row_approved))) translations.

(** [translations.every(s => s.qaStatus === 'approved')], which picks the
    style of the button. *)
Definition drawnActive (translations : list Row) : bool :=
  forallb (fun s => bool_decide (r_qaStatus s = row_approved)) translations.

(** [translations.filter(s => s.qaStatus === 'approved').length] *)
Definition approvedCount (translations : list Row) : nat :=
  length (List.filter (fun s => bool_decide (r_qaStatus s = row_approved)) translations).

(** The [segments] that [handleGenerateAudio] sends: id, translated text
    and time bounds of every row. *)
Definition audioSegments (translations : list Row) : list TranslationSegment :=
  List.map (fun seg => {| id := r_id seg; text := r_translation seg;
                          startTime := r_startTime seg; endTime := r_endTime seg |})
    translations.

(** Approving the segments of a list of ids one after the other, each call
    succeeding. *)
Definition approveAll (videoId : option jsstring) (ids : list Z) (rows : list Row)
  : list Row :=
  fold_left (fun rows i => handleApproveSegment videoId true i rows) ids rows.

(** *** The pipeline test script (the function [generateAudio]) *)

#[global] Instance QaStatus_eq_dec : EqDecision QaStatus.
Proof. solve_decision. Defined.

(** [t.qaStatus === 'approved' || t.confidence > 0.8], the filter of
    [generateAudio]. *)
Definition sufficientConfidence (t : FormattedTranslation) : bool :=
  bool_decide (f_qaStatus t = approved) || (f_confidence t >? 0.8).

(** [audioSegments] of [generateAudio].  The time bounds are looked up in
    the translations of the response, which have no [startTime] and no
    [endTime] property: both lookups give [undefined]. *)
Definition scriptAudioSegments (translations : list FormattedTranslation)
  : list TranslationSegment :=
  List.map (fun t => {| id := f_id t;
                        text := f_translatedText t;
                        startTime := orNumber None 0;
                        endTime := orNumber None 5 |})
    (List.filter sufficientConfidence translations).

(** [translations.filter(t => t.qaStatus === status).length], the counts of
    the [qualityBreakdown] of the summary. *)
Definition statusCount (status : QaStatus) (translations : list FormattedTranslation) : nat :=
  length (List.filter (fun t => bool_decide (f_qaStatus t = status)) translations).

(** *** Concrete inputs for the further examples *)

(** The middle band on the first of two segments: the arbiter answers "B". *)
Definition verifyingScript : list Completion :=
  [answer "a b c d e"; answer "a b c d"; answer "B";
   answer "Gracias."; answer "Gracias."].

(** A request body for two segments. *)
Definition spanishBody : TranslateBody :=
  {| body_targetLanguage := Some (js "es"); body_context := None;
     body_segments := Some [segment1; segment3] |}.

(** Two rows of the review screen, one approved and one waiting for review. *)
Definition reviewRows : list Row :=
  [ {| r_id := 1; r_text := js "Hello, citizens."; r_translation := js "Hola, ciudadanos.";
       r_confidence := 0.95; r_qaStatus := row_approved; r_startTime := 0; r_endTime := 2;
       r_originalText := js "Hello, citizens." |};
    {| r_id := 3; r_text := js "Thank you."; r_translation := js "Gracia.";
       r_confidence := 0.85; r_qaStatus := row_needs_review; r_startTime := 5;
       r_endTime := 6; r_originalText := js "Thank you." |} ].

(** Candidate A of scenario 1 with the metadata the provider function adds. *)
Definition candidateWithMetadata : TranslationResult :=
  providerResult (js "gpt-4") 0.9 (js "Spanish") (Some (js "Hola, ciudadanos.")).

(** * Properties *)

(** ** White space and fields *)

Example split_words : split (js "a  b ") = [js "a"; js "b"; js ""].
Proof. reflexivity. Qed.

Example split_empty : split (js "") = [js ""].
Proof. reflexivity. Qed.

Lemma splitFrom_nonempty cur inGap s : splitFrom cur inGap s ≠ [].
Proof.
  revert cur inGap.
  induction s as [|c r IH]; intros cur inGap; simpl; [done|].
  destruct (isWhiteSpace c); [destruct inGap|]; auto.
Qed.

Lemma split_nonempty s : split s ≠ [].
Proof. apply splitFrom_nonempty. Qed.

(** White space at the end of a text leaves an empty field, which counts as
    a token of its own; the texts the merge compares are trimmed by the
    providers' code and have none. *)
Example similarity_trailing_gap :
  calculateSimilarity (js "hola ") (js "hola") == 1 / 2.
Proof. by vm_compute. Qed.

Example similarity_ignores_case_and_order :
  calculateSimilarity (js "Hola, ciudadanos.") (js "ciudadanos. hola,") == 1.
Proof. by vm_compute. Qed.

(** ** [Set] as a duplicate-free list *)

Lemma elem_of_setAdd s x y : y ∈ setAdd s x ↔ y ∈ s ∨ y = x.
Proof.
  unfold setAdd. case_decide as Hin.
  - split; [auto|]. intros [?| ->]; done.
  - rewrite elem_of_app, list_elem_of_singleton. done.
Qed.

Lemma NoDup_setAdd s x : NoDup s → NoDup (setAdd s x).
Proof.
  intros Hs. unfold setAdd. case_decide as Hin; [done|].
  apply NoDup_app. split_and!; [done| |apply NoDup_singleton].
  intros y Hy ->%list_elem_of_singleton. done.
Qed.

Lemma fold_setAdd_spec l acc :
  NoDup acc →
  NoDup (fold_left setAdd l acc) ∧ ∀ x, x ∈ fold_left setAdd l acc ↔ x ∈ acc ∨ x ∈ l.
Proof.
  revert acc. induction l as [|a l IH]; intros acc Hacc; simpl.
  - split; [done|]. intros x. rewrite elem_of_nil. tauto.
  - destruct (IH (setAdd acc a) (NoDup_setAdd _ _ Hacc)) as [Hnd Hel].
    split; [done|]. intros x. rewrite Hel, elem_of_setAdd, elem_of_cons. tauto.
Qed.

Lemma NoDup_newSet l : NoDup (newSet l).
Proof. apply fold_setAdd_spec, NoDup_nil_2. Qed.

Lemma elem_of_newSet l x : x ∈ newSet l ↔ x ∈ l.
Proof.
  unfold newSet. destruct (fold_setAdd_spec l [] (NoDup_nil_2)) as [_ H].
  rewrite H, elem_of_nil. tauto.
Qed.

(** The size of a [Set] built from a list is the number of distinct elements
    of the list. *)
Lemma length_newSet l : length (newSet l) = size (list_to_set l : gset jsstring).
Proof.
  rewrite <- (size_list_to_set (C:=gset jsstring) (newSet l)) by apply NoDup_newSet.
  f_equal. apply set_eq. intros x.
  rewrite !elem_of_list_to_set. apply elem_of_newSet.
Qed.

(** ** Quotients of counts *)

Lemma num_le a b : (a ≤ b)%nat → num a <= num b.
Proof. intros H. unfold num. rewrite <- Zle_Qle. lia. Qed.

Lemma num_pos b : (0 < b)%nat → 0 < num b.
Proof. intros H. unfold num. change 0 with (inject_Z 0). rewrite <- Zlt_Qlt. lia. Qed.

Lemma num_div_bounds a b : (a ≤ b)%nat → (0 < b)%nat → 0 <= num a / num b <= 1.
Proof.
  intros Hab Hb. pose proof (num_pos b Hb) as Hpos. split.
  - apply Qle_shift_div_l; [done|]. rewrite Qmult_0_l.
    change 0 with (num 0). apply num_le. lia.
  - apply Qle_shift_div_r; [done|]. rewrite Qmult_1_l. by apply num_le.
Qed.

Lemma num_div_same b : (0 < b)%nat → num b / num b == 1.
Proof.
  intros Hb. apply Qmult_inv_r. intros H.
  pose proof (num_pos b Hb) as Hpos. rewrite H in Hpos. by apply Qlt_irrefl in Hpos.
Qed.

(** ** The similarity scorer *)

Section Similarity.

Context {caseMapping : CaseMapping}.

Lemma tokenSet_nonempty t : (0 < size (tokenSet t))%nat.
Proof.
  unfold tokenSet. pose proof (split_nonempty (toLowerCase t)) as Hne.
  destruct (split (toLowerCase t)) as [|w ws]; [done|].
  enough (size (list_to_set (w :: ws) : gset jsstring) ≠ 0%nat) by lia.
  apply size_non_empty_iff. set_solver.
Qed.

Lemma union_size_pos t1 t2 : (0 < size (tokenSet t1 ∪ tokenSet t2))%nat.
Proof.
  pose proof (tokenSet_nonempty t1).
  assert (size (tokenSet t1) ≤ size (tokenSet t1 ∪ tokenSet t2))%nat
    by (apply subseteq_size; set_solver).
  lia.
Qed.

(** The quotient the source computes is the one of the token sets. *)
Lemma calculateSimilarity_tokenSets text1 text2 :
  calculateSimilarity text1 text2
  = num (size (tokenSet text1 ∩ tokenSet text2))
    / num (size (tokenSet text1 ∪ tokenSet text2)).
Proof.
  unfold calculateSimilarity, tokenSet. cbv zeta.
  rewrite !length_newSet. do 3 f_equal.
  - f_equal. apply set_eq. intros x.
    rewrite elem_of_list_to_set, list_elem_of_filter, elem_of_intersection,
      !elem_of_list_to_set, !elem_of_newSet. tauto.
  - f_equal. apply set_eq. intros x.
    rewrite elem_of_list_to_set, elem_of_app, elem_of_union,
      !elem_of_list_to_set, !elem_of_newSet. tauto.
Qed.

Lemma calculateSimilarity_same text : calculateSimilarity text text == 1.
Proof.
  rewrite calculateSimilarity_tokenSets.
  replace (tokenSet text ∩ tokenSet text) with (tokenSet text) by set_solver.
  replace (tokenSet text ∪ tokenSet text) with (tokenSet text) by set_solver.
  apply num_div_same, tokenSet_nonempty.
Qed.


Lemma calculateSimilarity_bounds text1 text2 :
  0 <= calculateSimilarity text1 text2 <= 1.
Proof.
  rewrite calculateSimilarity_tokenSets.
  apply num_div_bounds; [|apply union_size_pos].
  apply subseteq_size. set_solver.
Qed.


End Similarity.

(** ** Comparisons of numbers *)

Lemma Qgtb_true x y : (x >? y) = true ↔ y < x.
Proof.
  unfold Qgtb. rewrite negb_true_iff, <- not_true_iff_false, Qle_bool_iff.
  split; [apply Qnot_le_lt | apply Qlt_not_le].
Qed.

Lemma Qgtb_false x y : (x >? y) = false ↔ x <= y.
Proof. unfold Qgtb. by rewrite negb_false_iff, Qle_bool_iff. Qed.

Lemma regime_high s : 0.9 < s → regime s = high_agreement.
Proof.
  intros H. unfold regime. destruct (Qlt_le_dec 0.9 s) as [_|Hle]; [done|].
  by apply Qle_not_lt in Hle.
Qed.

Lemma regime_verified s : 0.7 < s → s <= 0.9 → regime s = verified_selection.
Proof.
  intros H1 H2. unfold regime.
  destruct (Qlt_le_dec 0.9 s) as [Hlt|_]; [by apply Qle_not_lt in H2|].
  destruct (Qlt_le_dec 0.7 s) as [_|Hle]; [done|]. by apply Qle_not_lt in Hle.
Qed.

Lemma regime_low s : s <= 0.7 → regime s = low_agreement_flagged.
Proof.
  intros H. unfold regime.
  destruct (Qlt_le_dec 0.9 s) as [Hlt|_].
  { exfalso. apply (Qle_not_lt _ _ H). by apply Qlt_trans with 0.9. }
  destruct (Qlt_le_dec 0.7 s) as [Hlt|_]; [by apply Qle_not_lt in H|done].
Qed.

(** ** Running sequences and handlers *)

Section Running.

Context {W : Type} (api : W → Request → Completion * W).

Lemma run_bind {A B : Type} (p : Async A) (f : A → Async B) w :
  run api (bind p f) w =
  match outcome (run api p w) with
  | Fulfilled a => after (run api p w) (run api (f a) (world (run api p w)))
  | Raised e => {| outcome := Raised e; calls := calls (run api p w);
                   world := world (run api p w) |}
  end.
Proof.
  revert w. induction p as [a|e|r k IH|r1 r2 k IH]; intros w; simpl.
  - by destruct (run api (f a) w).
  - done.
  - destruct (api w r) as [c w1]. rewrite IH. unfold called, after. simpl.
    by destruct (run api (k c) w1) as [[a|e] tr w2].
  - destruct (api w r1) as [c1 w1], (api w1 r2) as [c2 w2]. rewrite IH.
    unfold called, after. simpl.
    by destruct (run api (k c1 c2) w2) as [[a|e] tr w3].
Qed.

Lemma run_tryCatch {A : Type} (p : Async A) (handler : JsError → Async A) w :
  run api (tryCatch p handler) w =
  match outcome (run api p w) with
  | Fulfilled a => run api p w
  | Raised e => after (run api p w) (run api (handler e) (world (run api p w)))
  end.
Proof.
  revert w. induction p as [a|e|r k IH|r1 r2 k IH]; intros w; simpl.
  - done.
  - by destruct (run api (handler e) w).
  - destruct (api w r) as [c w1]. rewrite IH. unfold called, after. simpl.
    by destruct (run api (k c) w1) as [[a|e] tr w2].
  - destruct (api w r1) as [c1 w1], (api w1 r2) as [c2 w2]. rewrite IH.
    unfold called, after. simpl.
    by destruct (run api (k c1 c2) w2) as [[a|e] tr w3].
Qed.

(** Rethrowing in the handler changes nothing. *)
Lemma run_tryCatch_rethrow {A : Type} (p : Async A) w :
  run api (tryCatch p (fun error => Throw error)) w = run api p w.
Proof.
  rewrite run_tryCatch. destruct (run api p w) as [[a|e] tr w1]; simpl; [done|].
  unfold after. simpl. by rewrite app_nil_r.
Qed.

End Running.

(** ** The merge resolver *)

Section Merge.

Context {caseMapping : CaseMapping} {W : Type} (api : W → Request → Completion * W).

(** What [verifyTranslation] does with the settled verification request. *)
Lemma run_verifyTranslation originalText a b targetLanguage w :
  let request := verifyRequest originalText a b targetLanguage in
  let c := (api w request).1 in
  ∃ v, run api (verifyTranslation originalText a b targetLanguage) w
       = {| outcome := Fulfilled v; calls := [(request, c)]; world := (api w request).2 |}
     ∧ (throws c = true →
        v = {| preferredTranslation := a; preferredModel := js "gpt-4";
               v_confidence := 0.75 |})
     ∧ (throws c = false → arbiterChoice c = Some (js "A") →
        v = {| preferredTranslation := a; preferredModel := js "gpt-4";
               v_confidence := 0.85 |})
     ∧ (throws c = false → arbiterChoice c ≠ Some (js "A") →
        v = {| preferredTranslation := b; preferredModel := js "gpt-4-turbo";
               v_confidence := 0.85 |}).
Proof.
  intros request c. subst c. unfold verifyTranslation, create. simpl.
  fold request. destruct (api w request) as [[e|[|content rest]] w1]; simpl.
  - eexists. split; [done|]. split_and!; done.
  - eexists. split; [done|]. split_and!; done.
  - destruct content as [content|]; simpl.
    + case_decide as Hchoice; simpl; (eexists; split; [done|]); split_and!;
        try done; intros _ Hc; congruence.
    + eexists. split; [done|]. split_and!; done.
Qed.

(** Symbolic execution of [mergeTranslations]: it always returns, and what
    it returns in each branch. *)
Lemma run_mergeTranslations segment a b targetLanguage w :
  let s := calculateSimilarity (translatedText a) (translatedText b) in
  let request := verifyRequest (text segment) (translatedText a) (translatedText b)
                   targetLanguage in
  let c := (api w request).1 in
  ∃ m, outcome (run api (mergeTranslations segment a b targetLanguage) w) = Fulfilled m
     ∧ comparisonScore m = s
     ∧ gpt4Result (m_metadata m) = a
     ∧ geminiResult (m_metadata m) = b
     ∧ (0.9 < s → selection m = (translatedText a, js "gpt-4", 0.95, high_agreement))
     ∧ (s <= 0.7 → selection m = (translatedText a, js "gpt-4", 0.7, low_agreement_flagged))
     ∧ (0.7 < s → s <= 0.9 →
        (throws c = true →
         selection m = (translatedText a, js "gpt-4", 0.75, verified_selection))
        ∧ (throws c = false → arbiterChoice c = Some (js "A") →
           selection m = (translatedText a, js "gpt-4", 0.85, verified_selection))
        ∧ (throws c = false → arbiterChoice c ≠ Some (js "A") →
           selection m = (translatedText b, js "gpt-4-turbo", 0.85, verified_selection))).
Proof.
  intros s request c. unfold mergeTranslations. fold s.
  destruct (s >? 0.9) eqn:Hhigh; [|destruct (s >? 0.7) eqn:Hmid].
  - apply Qgtb_true in Hhigh. simpl. eexists. split; [done|]. split_and!; try done.
    + intros Hlow. exfalso. apply (Qle_not_lt _ _ Hlow). by apply Qlt_trans with 0.9.
    + intros _ Hle. by apply Qle_not_lt in Hle.
  - apply Qgtb_false in Hhigh. apply Qgtb_true in Hmid.
    destruct (run_verifyTranslation (text segment) (translatedText a) (translatedText b)
                targetLanguage w) as (v & Hrun & Hthrow & HA & HB).
    fold request in Hrun, Hthrow, HA, HB. fold c in Hthrow, HA, HB.
    rewrite !run_bind, Hrun. simpl. eexists. split; [done|].
    unfold selection. simpl. split_and!; try done.
    + intros Hlt. by apply Qle_not_lt in Hhigh.
    + intros Hle. by apply Qle_not_lt in Hle.
    + intros _ _. split_and!.
      * intros Hc. by rewrite (Hthrow Hc).
      * intros Hc Hch. by rewrite (HA Hc Hch).
      * intros Hc Hch. by rewrite (HB Hc Hch).
  - apply Qgtb_false in Hhigh, Hmid. simpl. eexists. split; [done|].
    split_and!; try done.
    + intros Hlt. by apply Qle_not_lt in Hhigh.
    + intros Hlt. by apply Qle_not_lt in Hmid.
Qed.

(** The duration estimate, the word count and the providers' base
    confidence play no part in the merge: candidates with the same texts are
    merged to the same selection. *)
Lemma mergeTranslations_reads_texts_only segment a b a' b' targetLanguage w :
  translatedText a = translatedText a' →
  translatedText b = translatedText b' →
  ∃ m m',
    outcome (run api (mergeTranslations segment a b targetLanguage) w) = Fulfilled m
    ∧ outcome (run api (mergeTranslations segment a' b' targetLanguage) w) = Fulfilled m'
    ∧ selection m = selection m'
    ∧ comparisonScore m = comparisonScore m'.
Proof.
  intros Ha Hb.
  destruct (run_mergeTranslations segment a b targetLanguage w) as (m & Hm & _).
  destruct (run_mergeTranslations segment a' b' targetLanguage w) as (m' & Hm' & _).
  exists m, m'. split; [done|]. split; [done|].
  revert Hm Hm'. unfold mergeTranslations. rewrite <- Ha, <- Hb, !run_bind.
  destruct (run api _ w) as [[[[[t l] c] st]|e] tr w1]; simpl; [|done].
  by intros [= <-] [= <-].
Qed.

Lemma regime_cases s :
  (0.9 < s ∧ regime s = high_agreement)
  ∨ (0.7 < s ∧ s <= 0.9 ∧ regime s = verified_selection)
  ∨ (s <= 0.7 ∧ regime s = low_agreement_flagged).
Proof.
  unfold regime. destruct (Qlt_le_dec 0.9 s); [by left|].
  destruct (Qlt_le_dec 0.7 s); [right; by left|right; by right].
Qed.

(** In the middle band the strategy is [verified_selection] however the
    verification call settles. *)
Lemma verified_strategy segment a b targetLanguage w m :
  let s := calculateSimilarity (translatedText a) (translatedText b) in
  outcome (run api (mergeTranslations segment a b targetLanguage) w) = Fulfilled m →
  0.7 < s → s <= 0.9 →
  mergeStrategy (m_metadata m) = verified_selection.
Proof.
  intros s Hm Hlo Hhi.
  destruct (run_mergeTranslations segment a b targetLanguage w)
    as (m' & Hm' & _ & _ & _ & _ & _ & Hmid).
  rewrite Hm in Hm'. injection Hm' as <-.
  destruct (Hmid Hlo Hhi) as (Hthrow & HA & HB).
  set (c := (api w (verifyRequest (text segment) (translatedText a) (translatedText b)
                      targetLanguage)).1) in *.
  destruct (throws c) eqn:Hc.
  - specialize (Hthrow eq_refl). by injection Hthrow.
  - destruct (decide (arbiterChoice c = Some (js "A"))) as [Hch|Hch].
    + specialize (HA eq_refl Hch). by injection HA.
    + specialize (HB eq_refl Hch). by injection HB.
Qed.

(** C1 (as the code has it).  For every similarity score [s]
    [mergeTranslations] returns, and selects exactly one regime, the one
    [regime s] names: [high_agreement] when [s > 0.90] (provider A's text,
    [primaryModel] gpt-4, confidence 0.95), [verified_selection] when
    [0.70 < s <= 0.90], [low_agreement_flagged] when [s <= 0.70] (provider
    A's text, confidence 0.70).  Both thresholds are strict: a score of
    exactly 0.90 is assigned to [verified_selection] and a score of exactly
    0.70 to [low_agreement_flagged]. *)
Theorem mergeTranslations_regime segment a b targetLanguage w :
  let s := calculateSimilarity (translatedText a) (translatedText b) in
  ∃ m, outcome (run api (mergeTranslations segment a b targetLanguage) w) = Fulfilled m
     ∧ comparisonScore m = s
     ∧ mergeStrategy (m_metadata m) = regime s
     ∧ (0.9 < s → selection m = (translatedText a, js "gpt-4", 0.95, high_agreement))
     ∧ (0.7 < s → s <= 0.9 → mergeStrategy (m_metadata m) = verified_selection)
     ∧ (s <= 0.7 → selection m = (translatedText a, js "gpt-4", 0.7, low_agreement_flagged))
     ∧ (s == 0.9 → mergeStrategy (m_metadata m) = verified_selection)
     ∧ (s == 0.7 → mergeStrategy (m_metadata m) = low_agreement_flagged).
Proof.
  intros s.
  destruct (run_mergeTranslations segment a b targetLanguage w)
    as (m & Hm & Hs & _ & _ & Hhigh & Hlow & _).
  fold s in Hs, Hhigh, Hlow.
  pose proof (verified_strategy segment a b targetLanguage w m Hm) as Hmid.
  simpl in Hmid. fold s in Hmid.
  exists m. split; [done|]. split; [done|].
  assert (Hl : s <= 0.7 → mergeStrategy (m_metadata m) = low_agreement_flagged).
  { intros H. specialize (Hlow H). by injection Hlow. }
  split_and!; try done.
  - destruct (regime_cases s) as [[H ->]|[(H1 & H2 & ->)|[H ->]]]; auto.
    specialize (Hhigh H). by injection Hhigh.
  - intros Heq. apply Hmid; rewrite Heq; [reflexivity|apply Qle_refl].
  - intros Heq. apply Hl. rewrite Heq. apply Qle_refl.
Qed.

End Merge.

(** C3 (as the code has it).  The merge strategy of a result is determined
    by the regime of the similarity score alone, and so is the confidence in
    the [high_agreement] regime (0.95) and in the [low_agreement_flagged]
    regime (0.70).  In the [verified_selection] regime the confidence also
    depends on how the verification call settles: 0.85 when it returns, 0.75
    when it throws. *)
Theorem confidence_by_regime `{CaseMapping} {W1 W2 : Type}
    (api1 : W1 → Request → Completion * W1) (api2 : W2 → Request → Completion * W2)
    segment1 a1 b1 targetLanguage1 w1 segment2 a2 b2 targetLanguage2 w2 :
  let s1 := calculateSimilarity (translatedText a1) (translatedText b1) in
  let s2 := calculateSimilarity (translatedText a2) (translatedText b2) in
  let c1 := (api1 w1 (verifyRequest (text segment1) (translatedText a1) (translatedText b1)
                        targetLanguage1)).1 in
  let c2 := (api2 w2 (verifyRequest (text segment2) (translatedText a2) (translatedText b2)
                        targetLanguage2)).1 in
  regime s1 = regime s2 →
  ∃ m1 m2,
    outcome (run api1 (mergeTranslations segment1 a1 b1 targetLanguage1) w1) = Fulfilled m1
    ∧ outcome (run api2 (mergeTranslations segment2 a2 b2 targetLanguage2) w2) = Fulfilled m2
    ∧ mergeStrategy (m_metadata m1) = mergeStrategy (m_metadata m2)
    ∧ (regime s1 = high_agreement → m_confidence m1 = 0.95 ∧ m_confidence m2 = 0.95)
    ∧ (regime s1 = low_agreement_flagged → m_confidence m1 = 0.7 ∧ m_confidence m2 = 0.7)
    ∧ (regime s1 = verified_selection →
       m_confidence m1 = (if throws c1 then 0.75 else 0.85)
       ∧ m_confidence m2 = (if throws c2 then 0.75 else 0.85)).
Proof.
  intros s1 s2 c1 c2 Hregime.
  destruct (run_mergeTranslations api1 segment1 a1 b1 targetLanguage1 w1)
    as (m1 & Hm1 & _ & _ & _ & Hhigh1 & Hlow1 & Hmid1).
  destruct (run_mergeTranslations api2 segment2 a2 b2 targetLanguage2 w2)
    as (m2 & Hm2 & _ & _ & _ & Hhigh2 & Hlow2 & Hmid2).
  fold s1 in Hhigh1, Hlow1, Hmid1. fold s2 in Hhigh2, Hlow2, Hmid2.
  fold c1 in Hmid1. fold c2 in Hmid2.
  assert (Hconf : ∀ c m (a b : TranslationResult),
    (throws c = true → selection m = (translatedText a, js "gpt-4", 0.75, verified_selection))
    ∧ (throws c = false → arbiterChoice c = Some (js "A") →
       selection m = (translatedText a, js "gpt-4", 0.85, verified_selection))
    ∧ (throws c = false → arbiterChoice c ≠ Some (js "A") →
       selection m = (translatedText b, js "gpt-4-turbo", 0.85, verified_selection)) →
    mergeStrategy (m_metadata m) = verified_selection
    ∧ m_confidence m = (if throws c then 0.75 else 0.85)).
  { intros c m a b (Hthrow & HA & HB). destruct (throws c).
    - specialize (Hthrow eq_refl). by injection Hthrow.
    - destruct (decide (arbiterChoice c = Some (js "A"))) as [Hch|Hch].
      + specialize (HA eq_refl Hch). by injection HA.
      + specialize (HB eq_refl Hch). by injection HB. }
  exists m1, m2. split; [done|]. split; [done|].
  destruct (regime_cases s1) as [[H1 R1]|[(H1 & H1' & R1)|[H1 R1]]];
    destruct (regime_cases s2) as [[H2 R2]|[(H2 & H2' & R2)|[H2 R2]]];
    try congruence; rewrite R1.
  - specialize (Hhigh1 H1). specialize (Hhigh2 H2).
    injection Hhigh1 as _ _ Hc1 Hs1. injection Hhigh2 as _ _ Hc2 Hs2.
    split_and!; [congruence|done|done|done].
  - destruct (Hconf _ _ _ _ (Hmid1 H1 H1')) as [Hs1 Hc1].
    destruct (Hconf _ _ _ _ (Hmid2 H2 H2')) as [Hs2 Hc2].
    split_and!; [congruence|done|done|done].
  - specialize (Hlow1 H1). specialize (Hlow2 H2).
    injection Hlow1 as _ _ Hc1 Hs1. injection Hlow2 as _ _ Hc2 Hs2.
    split_and!; [congruence|done|done|done].
Qed.

Section Orchestrator.

Context {caseMapping : CaseMapping} {W : Type} (api : W → Request → Completion * W).

Lemma run_translateSegment segment targetLanguage contextPrompt w :
  let r1 := translateRequest 0.3 segment targetLanguage contextPrompt in
  let r2 := translateRequest 0.5 segment targetLanguage contextPrompt in
  let c1 := (api w r1).1 in
  let w1 := (api w r1).2 in
  let c2 := (api w1 r2).1 in
  let w2 := (api w1 r2).2 in
  (throws c1 || throws c2 = true →
   ∃ e, run api (translateSegment segment targetLanguage contextPrompt) w
        = {| outcome := Raised e; calls := [(r1, c1); (r2, c2)]; world := w2 |})
  ∧ (throws c1 || throws c2 = false →
     ∃ a b, model a = js "gpt-4" ∧ model b = js "gpt-4-turbo"
          ∧ run api (translateSegment segment targetLanguage contextPrompt) w
            = called (r1, c1) (called (r2, c2)
                (run api (mergeTranslations segment a b targetLanguage) w2))).
Proof.
  intros r1 r2 c1 w1 c2 w2. subst c1 w1 c2 w2.
  unfold translateSegment. rewrite run_tryCatch_rethrow.
  unfold translateWithGPT4, translateWithGPT4Turbo, create. simpl.
  fold r1 r2. destruct (api w r1) as [c1 w1]. simpl.
  destruct (api w1 r2) as [c2 w2]. simpl.
  destruct c1 as [e1|[|content1 rest1]], c2 as [e2|[|content2 rest2]]; simpl;
    (split; intros Hthrows;
       [first [done|eexists; reflexivity]
       |first [done|do 2 eexists; split; [|split]; [| |reflexivity]; reflexivity]]).
Qed.

(** Every request [mergeTranslations] sends is a verification request. *)
Lemma calls_mergeTranslations segment a b targetLanguage w ev :
  ev ∈ calls (run api (mergeTranslations segment a b targetLanguage) w) →
  isTranslate ev.1 = false.
Proof.
  unfold mergeTranslations.
  destruct (_ >? 0.9); [|destruct (_ >? 0.7)].
  - simpl. by intros ?%elem_of_nil.
  - destruct (run_verifyTranslation api (text segment) (translatedText a)
                (translatedText b) targetLanguage w) as (v & Hrun & _).
    rewrite !run_bind, Hrun. simpl.
    by intros ->%list_elem_of_singleton.
  - simpl. by intros ?%elem_of_nil.
Qed.

Lemma run_translateLoop_cons segment rest targetLanguage contextPrompt results w :
  run api (translateLoop (segment :: rest) targetLanguage contextPrompt results) w =
  let r := run api (translateSegment segment targetLanguage contextPrompt) w in
  match outcome r with
  | Fulfilled merged =>
      after r (run api (translateLoop rest targetLanguage contextPrompt (results ++ [merged]))
                 (world r))
  | Raised e => {| outcome := Raised e; calls := calls r; world := world r |}
  end.
Proof.
  exact (run_bind api (translateSegment segment targetLanguage contextPrompt) _ w).
Qed.

(** The accumulator of the loop is a prefix of its result. *)
Lemma run_translateLoop_acc segments targetLanguage contextPrompt results w :
  run api (translateLoop segments targetLanguage contextPrompt results) w =
  let r := run api (translateLoop segments targetLanguage contextPrompt []) w in
  {| outcome := match outcome r with
                | Fulfilled ms => Fulfilled (results ++ ms)
                | Raised e => Raised e
                end;
     calls := calls r; world := world r |}.
Proof.
  revert results w. induction segments as [|segment rest IH]; intros results w.
  - simpl. by rewrite app_nil_r.
  - cbv zeta. rewrite !run_translateLoop_cons. cbv zeta.
    destruct (run api (translateSegment segment targetLanguage contextPrompt) w)
      as [[merged|e] tr w1]; simpl; [|done].
    rewrite (IH (results ++ [merged])), (IH [merged]). cbv zeta. unfold after. simpl.
    destruct (outcome (run api (translateLoop rest targetLanguage contextPrompt []) w1));
      [|done].
    by rewrite <- app_assoc.
Qed.

(** Looping over a concatenation is looping over its parts in turn. *)
Lemma run_translateLoop_app l1 l2 targetLanguage contextPrompt results w :
  run api (translateLoop (l1 ++ l2) targetLanguage contextPrompt results) w =
  let r := run api (translateLoop l1 targetLanguage contextPrompt results) w in
  match outcome r with
  | Fulfilled ms => after r (run api (translateLoop l2 targetLanguage contextPrompt ms) (world r))
  | Raised e => {| outcome := Raised e; calls := calls r; world := world r |}
  end.
Proof.
  revert results w. induction l1 as [|segment rest IH]; intros results w.
  - simpl. by destruct (run api (translateLoop l2 targetLanguage contextPrompt results) w).
  - cbv zeta. rewrite <- app_comm_cons, !run_translateLoop_cons. cbv zeta.
    destruct (run api (translateSegment segment targetLanguage contextPrompt) w)
      as [[merged|e] tr w1]; simpl; [|done].
    rewrite IH. cbv zeta.
    destruct (run api (translateLoop rest targetLanguage contextPrompt (results ++ [merged])) w1)
      as [[ms|e] tr1 w2]; simpl; [|done].
    unfold after. simpl. by rewrite app_assoc.
Qed.

Lemma translateLoop_fulfilled segments targetLanguage contextPrompt results w out :
  outcome (run api (translateLoop segments targetLanguage contextPrompt results) w)
  = Fulfilled out →
  ∃ ms, out = results ++ ms ∧ Forall2 (translates api targetLanguage contextPrompt) segments ms.
Proof.
  revert results w. induction segments as [|segment rest IH]; intros results w.
  - simpl. intros [= <-]. exists []. by rewrite app_nil_r.
  - rewrite run_translateLoop_cons. cbv zeta.
    destruct (run api (translateSegment segment targetLanguage contextPrompt) w)
      as [[merged|e] tr w1] eqn:Hseg; simpl; [|done].
    intros (ms & -> & Hms)%IH. exists (merged :: ms). split.
    + by rewrite <- app_assoc.
    + constructor; [|done]. exists w. by rewrite Hseg.
Qed.

Lemma translateRequests_app l1 l2 :
  translateRequests (l1 ++ l2) = translateRequests l1 ++ translateRequests l2.
Proof. unfold translateRequests. by rewrite List.map_app, List.filter_app. Qed.

Lemma translateRequests_mergeTranslations segment a b targetLanguage w :
  translateRequests (calls (run api (mergeTranslations segment a b targetLanguage) w)) = [].
Proof.
  pose proof (calls_mergeTranslations segment a b targetLanguage w) as Hcalls.
  induction (calls (run api (mergeTranslations segment a b targetLanguage) w))
    as [|ev evs IH]; [done|].
  unfold translateRequests in *. simpl.
  rewrite (Hcalls ev) by apply list_elem_of_here.
  apply IH. intros ev' Hev'. apply Hcalls. by apply list_elem_of_further.
Qed.

(** In a successful run of the loop the translation requests are those of
    the segments, in the order of the segments. *)
Lemma translateLoop_requests segments targetLanguage contextPrompt results w out :
  outcome (run api (translateLoop segments targetLanguage contextPrompt results) w)
  = Fulfilled out →
  translateRequests (calls (run api (translateLoop segments targetLanguage contextPrompt
                                        results) w))
  = flat_map (requestsFor targetLanguage contextPrompt) segments.
Proof.
  revert results w. induction segments as [|segment rest IH]; intros results w.
  - done.
  - rewrite run_translateLoop_cons. cbv zeta.
    destruct (run_translateSegment segment targetLanguage contextPrompt w) as [Hbad Hgood].
    cbv zeta in Hbad, Hgood.
    destruct (throws _ || throws _).
    + destruct (Hbad eq_refl) as [e ->]. done.
    + destruct (Hgood eq_refl) as (a & b & _ & _ & ->).
      pose proof (translateRequests_mergeTranslations segment a b targetLanguage
                    (api (api w (translateRequest 0.3 segment targetLanguage contextPrompt)).2
                       (translateRequest 0.5 segment targetLanguage contextPrompt)).2) as Hm.
      clear Hbad Hgood.
      destruct (run api (mergeTranslations segment a b targetLanguage) _)
        as [[merged|e] tr w1]; simpl in Hm |- *; [|done].
      intros Hrest.
      change (?x :: ?y :: tr ++ ?l) with ([x; y] ++ tr ++ l).
      rewrite !translateRequests_app, Hm, (IH _ _ Hrest). done.
Qed.


(** The chunked loop of [batchTranslate] behaves as the plain loop over the
    segments from index [i] on. *)
Lemma run_batchLoop segments targetLanguageCode context i results w :
  run api (batchLoop segments targetLanguageCode context i results) w
  = run api (translateLoop (drop i segments)
               (orString (property languageMap targetLanguageCode) targetLanguageCode)
               (buildContextPrompt context
                  (orString (property languageMap targetLanguageCode) targetLanguageCode))
               results) w.
Proof.
  revert w.
  funelim (batchLoop segments targetLanguageCode context i results); intros w.
  - set (targetLanguage :=
           orString (property languageMap targetLanguageCode) targetLanguageCode) in *.
    set (contextPrompt := buildContextPrompt context targetLanguage) in *.
    rewrite run_bind. unfold translateWithContext, slice.
    fold targetLanguage contextPrompt.
    replace (i + batchSize - i)%nat with batchSize by lia.
    rewrite <- (take_drop batchSize (drop i segments)) at 2.
    rewrite run_translateLoop_app. cbv zeta.
    rewrite (run_translateLoop_acc (take batchSize (drop i segments)) _ _ results).
    cbv zeta. simpl.
    destruct (run api (translateLoop (take batchSize (drop i segments)) targetLanguage
                         contextPrompt []) w) as [[batchResults|e] tr w1]; simpl; [|done].
    unfold after. simpl. rewrite drop_drop.
    match goal with IH : ∀ _ _, run _ _ _ = _ |- _ => by rewrite IH end.
  - rewrite drop_ge by lia. done.
Qed.

Lemma run_batchTranslate segments targetLanguageCode context w :
  run api (batchTranslate segments targetLanguageCode context) w
  = run api (translateWithContext segments targetLanguageCode context) w.
Proof. unfold batchTranslate. by rewrite run_batchLoop. Qed.

(** The loop raises only when a translation call has failed. *)
Lemma translateLoop_raised segments targetLanguage contextPrompt results w e :
  outcome (run api (translateLoop segments targetLanguage contextPrompt results) w)
  = Raised e →
  ∃ ev, ev ∈ calls (run api (translateLoop segments targetLanguage contextPrompt results) w)
      ∧ isTranslate ev.1 = true ∧ throws ev.2 = true.
Proof.
  revert results w. induction segments as [|segment rest IH]; intros results w.
  - done.
  - rewrite run_translateLoop_cons. cbv zeta.
    destruct (run_translateSegment segment targetLanguage contextPrompt w) as [Hbad Hgood].
    cbv zeta in Hbad, Hgood.
    destruct (throws _ || throws _) eqn:Hthrows.
    + destruct (Hbad eq_refl) as [e' ->]. simpl. intros _.
      apply orb_true_iff in Hthrows as [Ht|Ht].
      * eexists (_, _). split; [apply list_elem_of_here|]. by split.
      * eexists (_, _). split; [apply list_elem_of_further, list_elem_of_here|]. by split.
    + destruct (Hgood eq_refl) as (a & b & _ & _ & ->). clear Hbad Hgood.
      destruct (run_mergeTranslations api segment a b targetLanguage
                  (api (api w (translateRequest 0.3 segment targetLanguage contextPrompt)).2
                     (translateRequest 0.5 segment targetLanguage contextPrompt)).2)
        as (m & Hm & _).
      unfold called at 1 2 3. simpl. rewrite Hm. simpl.
      intros (ev & Hev & Htr & Hth)%IH. exists ev. split; [|done].
      rewrite !elem_of_cons, elem_of_app. auto.
Qed.

(** C2 (as the code has it).  In the [verified_selection] band
    [mergeTranslations] never raises, whatever the verification call does.
    If the call throws (the request is rejected, or the completion has no
    choice to read), the result is candidate A's text with the label gpt-4
    and confidence exactly 0.75.  If the call returns, the reply is trimmed
    and upper-cased: the reply "A" selects candidate A's text, and every
    other reply - "B", a [null] content or any other text - selects candidate
    B's text with the label gpt-4-turbo; in both cases the confidence is
    0.85.  A failed verification is never propagated to the batch:
    [translateWithContext] raises only when a translation request failed. *)
Theorem verification_fallback segment a b targetLanguage w :
  let s := calculateSimilarity (translatedText a) (translatedText b) in
  let c := (api w (verifyRequest (text segment) (translatedText a) (translatedText b)
                     targetLanguage)).1 in
  (0.7 < s → s <= 0.9 →
   ∃ m, outcome (run api (mergeTranslations segment a b targetLanguage) w) = Fulfilled m
      ∧ (throws c = true →
         selection m = (translatedText a, js "gpt-4", 0.75, verified_selection))
      ∧ (throws c = false → arbiterChoice c = Some (js "A") →
         selection m = (translatedText a, js "gpt-4", 0.85, verified_selection))
      ∧ (throws c = false → arbiterChoice c ≠ Some (js "A") →
         selection m = (translatedText b, js "gpt-4-turbo", 0.85, verified_selection)))
  ∧ (∀ segments targetLanguageCode context w' e,
       outcome (run api (translateWithContext segments targetLanguageCode context) w')
       = Raised e →
       ∃ ev, ev ∈ calls (run api (translateWithContext segments targetLanguageCode context) w')
           ∧ isTranslate ev.1 = true ∧ throws ev.2 = true).
Proof.
  intros s c. split.
  - intros Hlo Hhi.
    destruct (run_mergeTranslations api segment a b targetLanguage w)
      as (m & Hm & _ & _ & _ & _ & _ & Hmid).
    exists m. split; [done|]. exact (Hmid Hlo Hhi).
  - intros segments targetLanguageCode context w' e. apply translateLoop_raised.
Qed.




(** C7.  When [translateWithContext] succeeds on a list of N segments, it
    returns exactly N merged translations and the i-th of them is a
    translation of the i-th segment; the translation requests were sent
    segment by segment, in input order.  [batchTranslate], which works through
    chunks of five segments in turn, runs as [translateWithContext] does on
    the whole list - same requests, same outcome - so it returns the same
    list. *)
Theorem order_preserved segments targetLanguageCode context w results :
  let targetLanguage :=
    orString (property languageMap targetLanguageCode) targetLanguageCode in
  let contextPrompt := buildContextPrompt context targetLanguage in
  outcome (run api (translateWithContext segments targetLanguageCode context) w)
  = Fulfilled results →
  length results = length segments
  ∧ Forall2 (translates api targetLanguage contextPrompt) segments results
  ∧ translateRequests (calls (run api (translateWithContext segments targetLanguageCode
                                         context) w))
    = flat_map (requestsFor targetLanguage contextPrompt) segments
  ∧ run api (batchTranslate segments targetLanguageCode context) w
    = run api (translateWithContext segments targetLanguageCode context) w
  ∧ outcome (run api (batchTranslate segments targetLanguageCode context) w)
    = Fulfilled results.
Proof.
  intros targetLanguage contextPrompt Hrun.
  pose proof Hrun as (ms & Hms & Hall)%translateLoop_fulfilled.
  simpl in Hms. subst ms.
  split_and!; [|done| |apply run_batchTranslate|by rewrite run_batchTranslate].
  - symmetry. by eapply Forall2_length.
  - by eapply translateLoop_requests.
Qed.

(** C10.  In every regime, the fallback after a failed verification
    included, [mergeTranslations] returns, and the text of the result is one
    of the two candidates' [translatedText] as it stands; [primaryModel] is
    gpt-4 when the text is candidate A's and gpt-4-turbo when it is candidate
    B's.  For a result of the translation loop these are the [model] labels
    of the provider results kept in its metadata. *)
Theorem merged_text_is_a_candidate segment a b targetLanguage w :
  (∃ m, outcome (run api (mergeTranslations segment a b targetLanguage) w) = Fulfilled m
      ∧ gpt4Result (m_metadata m) = a
      ∧ geminiResult (m_metadata m) = b
      ∧ ((m_text m = translatedText a ∧ primaryModel m = js "gpt-4")
         ∨ (m_text m = translatedText b ∧ primaryModel m = js "gpt-4-turbo")))
  ∧ (∀ contextPrompt m,
       outcome (run api (translateSegment segment targetLanguage contextPrompt) w)
       = Fulfilled m →
       (m_text m = translatedText (gpt4Result (m_metadata m))
        ∧ primaryModel m = model (gpt4Result (m_metadata m)))
       ∨ (m_text m = translatedText (geminiResult (m_metadata m))
          ∧ primaryModel m = model (geminiResult (m_metadata m)))).
Proof.
  assert (Hmerge : ∀ a b w,
    ∃ m, outcome (run api (mergeTranslations segment a b targetLanguage) w) = Fulfilled m
      ∧ gpt4Result (m_metadata m) = a
      ∧ geminiResult (m_metadata m) = b
      ∧ ((m_text m = translatedText a ∧ primaryModel m = js "gpt-4")
         ∨ (m_text m = translatedText b ∧ primaryModel m = js "gpt-4-turbo"))).
  { clear a b w. intros a b w.
    destruct (run_mergeTranslations api segment a b targetLanguage w)
      as (m & Hm & _ & Ha & Hb & Hhigh & Hlow & Hmid).
    exists m. split_and!; try done.
    set (s := calculateSimilarity (translatedText a) (translatedText b)) in *.
    set (c := (api w _).1) in *.
    destruct (regime_cases s) as [[H _]|[(H1 & H2 & _)|[H _]]].
    - specialize (Hhigh H). injection Hhigh as ? ? _ _. by left.
    - destruct (Hmid H1 H2) as (Hthrow & HA & HB). destruct (throws c).
      + specialize (Hthrow eq_refl). injection Hthrow as ? ? _ _. by left.
      + destruct (decide (arbiterChoice c = Some (js "A"))) as [Hch|Hch].
        * specialize (HA eq_refl Hch). injection HA as ? ? _ _. by left.
        * specialize (HB eq_refl Hch). injection HB as ? ? _ _. by right.
    - specialize (Hlow H). injection Hlow as ? ? _ _. by left. }
  split; [apply Hmerge|].
  intros contextPrompt m.
  destruct (run_translateSegment segment targetLanguage contextPrompt w) as [Hbad Hgood].
  cbv zeta in Hbad, Hgood.
  destruct (throws _ || throws _).
  - destruct (Hbad eq_refl) as [e ->]. done.
  - destruct (Hgood eq_refl) as (a' & b' & Ha' & Hb' & ->). unfold called. simpl.
    destruct (Hmerge a' b' (api (api w (translateRequest 0.3 segment targetLanguage
                                          contextPrompt)).2
                              (translateRequest 0.5 segment targetLanguage contextPrompt)).2)
      as (m' & -> & Hga & Hgb & Hsel).
    intros [= <-]. rewrite Hga, Hgb, Ha', Hb'. done.
Qed.

End Orchestrator.

(** ** QA status and duration estimate *)

(** C8 (as the code has it).  The controller maps a confidence [c] to
    'approved' when [c > 0.90], to 'needs-review' when [0.80 < c <= 0.90] and
    to 'flagged' otherwise: both boundaries are exclusive, so a confidence of
    exactly 0.90 is 'needs-review' and one of exactly 0.80 is 'flagged'. *)
Theorem qaStatus_thresholds c :
  (0.9 < c → qaStatus c = approved)
  ∧ (0.8 < c → c <= 0.9 → qaStatus c = needs_review)
  ∧ (c <= 0.8 → qaStatus c = flagged)
  ∧ (c == 0.9 → qaStatus c = needs_review)
  ∧ (c == 0.8 → qaStatus c = flagged).
Proof.
  assert (Hmid : 0.8 < c → c <= 0.9 → qaStatus c = needs_review).
  { intros H1%Qgtb_true H2%Qgtb_false. unfold qaStatus. by rewrite H2, H1. }
  assert (Hlow : c <= 0.8 → qaStatus c = flagged).
  { intros H. unfold qaStatus. rewrite (proj2 (Qgtb_false c 0.8) H).
    assert (H9 : c <= 0.9) by (by apply Qle_trans with 0.8).
    by rewrite (proj2 (Qgtb_false c 0.9) H9). }
  split_and!; try done.
  - intros H%Qgtb_true. unfold qaStatus. by rewrite H.
  - intros Heq. apply Hmid; rewrite Heq; [reflexivity|apply Qle_refl].
  - intros Heq. apply Hlow. rewrite Heq. apply Qle_refl.
Qed.

(** The four confidence levels of the merge engine and their status. *)
Lemma qaStatus_of_levels :
  qaStatus 0.95 = approved ∧ qaStatus 0.85 = needs_review
  ∧ qaStatus 0.75 = flagged ∧ qaStatus 0.7 = flagged.
Proof. by vm_compute. Qed.

(** The status in a formatted translation is the one of its confidence. *)
Lemma formatTranslations_qaStatus `{CaseMapping} {W : Type}
    (api : W → Request → Completion * W) segments index translations w fs :
  outcome (run api (formatTranslations segments index translations) w) = Fulfilled fs →
  Forall (fun f => f_qaStatus f = qaStatus (f_confidence f)) fs.
Proof.
  revert index fs. induction translations as [|trans rest IH]; intros index fs; simpl.
  - intros [= <-]. constructor.
  - destruct (segments !! index) as [segment|]; simpl; [|done].
    rewrite run_bind.
    destruct (run api (formatTranslations segments (S index) rest) w)
      as [[fs'|e] tr w1] eqn:Hrest; simpl; [|done].
    intros [= <-]. constructor; [done|]. eapply IH. by rewrite Hrest.
Qed.

(** Nine of the ten language names have an entry of their own in the table
    of speaking rates. *)
Lemma speechRates_own_entries :
  Forall (fun entry => entry.2 = js "Chinese (Mandarin)"
                       ∨ is_Some (property speechRates entry.2)) languageMap.
Proof.
  unfold languageMap.
  repeat match goal with
         | |- Forall _ (_ :: _) => apply List.Forall_cons
         | |- Forall _ [] => apply List.Forall_nil
         end; simpl; first [by left|right; vm_compute; eauto].
Qed.

(** C9 (what the code does for Mandarin).  The language map names the
    code zh 'Chinese (Mandarin)', the table of speaking rates has its entry
    (160 words per minute) under 'Chinese', and so the estimate for a
    Mandarin text is made with the default rate of 175 words per minute and
    differs from the one at 160. *)
Theorem estimateDuration_mandarin_default_rate text :
  property languageMap (js "zh") = Some (js "Chinese (Mandarin)")
  ∧ property speechRates (js "Chinese") = Some 160
  ∧ property speechRates (js "Chinese (Mandarin)") = None
  ∧ estimateDuration text (js "Chinese (Mandarin)") = num (length (split text)) / 175 * 60
  ∧ ¬ estimateDuration text (js "Chinese (Mandarin)") == num (length (split text)) / 160 * 60.
Proof.
  split_and!; try done.
  unfold estimateDuration.
  change (orNumber (property speechRates (js "Chinese (Mandarin)")) 175) with 175.
  pose proof (split_nonempty text) as Hne.
  assert (Hpos : 0 < num (length (split text))).
  { apply num_pos. destruct (split text); [done|simpl; lia]. }
  intros Heq.
  assert (H : num (length (split text)) * (60 / 175) == num (length (split text)) * (60 / 160)).
  { transitivity (num (length (split text)) / 175 * 60); [by field|].
    rewrite Heq. by field. }
  apply Qmult_inj_l in H; [by vm_compute in H|].
  intros Hzero. rewrite Hzero in Hpos. by apply Qlt_irrefl in Hpos.
Qed.

(** ** Concrete runs *)

(** Scenario 1: both providers answer "Hola, ciudadanos."; the score is 1,
    the regime [high_agreement], the confidence 0.95. *)
Lemma mergeTranslations_regime_witness :
  ∃ m, outcome (run scripted
                  (mergeTranslations segment1 (candidateA "Hola, ciudadanos.")
                     (candidateB "Hola, ciudadanos.") (js "Spanish")) [])
       = Fulfilled m
     ∧ selection m = (js "Hola, ciudadanos.", js "gpt-4", 0.95, high_agreement).
Proof.
  destruct (mergeTranslations_regime scripted segment1 (candidateA "Hola, ciudadanos.")
              (candidateB "Hola, ciudadanos.") (js "Spanish") [])
    as (m & Hm & _ & _ & Hhigh & _).
  exists m. split; [exact Hm|]. apply Hhigh. by vm_compute.
Defined.

(** Scenario 2: unrelated answers share no token; the score is 0, the
    regime [low_agreement_flagged], the text provider A's, the confidence
    0.70, and no verification request is sent. *)
Example scenario_low_agreement :
  ∃ m, run scripted
         (mergeTranslations segment2 (candidateA "We will invest fifty million dollars.")
            (candidateB "Completely unrelated sentence about weather.") (js "Spanish")) []
       = {| outcome := Fulfilled m; calls := []; world := [] |}
     ∧ comparisonScore m == 0
     ∧ selection m = (js "We will invest fifty million dollars.", js "gpt-4", 0.7,
                      low_agreement_flagged).
Proof. eexists. split; [by vm_compute|]. by vm_compute. Qed.

(** C1, the boundary at 0.90: nine of ten tokens shared give a score of
    exactly 0.90, and the merge goes through the verification arbiter
    instead of taking the [high_agreement] branch. *)
Lemma score_090_is_not_high_agreement :
  ∃ m, outcome (run scripted
                  (mergeTranslations segment1 (candidateA "a b c d e f g h i")
                     (candidateB "a b c d e f g h i j") (js "Spanish")) [answer "A"])
       = Fulfilled m
     ∧ comparisonScore m == 0.9
     ∧ mergeStrategy (m_metadata m) = verified_selection
     ∧ mergeStrategy (m_metadata m) ≠ high_agreement
     ∧ m_confidence m ≠ 0.95.
Proof. eexists. split; [by vm_compute|]. by vm_compute. Qed.

(** The verification request is rejected: candidate A at 0.75. *)
Lemma verification_fallback_witness :
  ∃ m, outcome (run scripted
                  (mergeTranslations segment1 (candidateA "a b c d e")
                     (candidateB "a b c d") (js "Spanish"))
                  [Rejected (ApiError (js "timeout"))])
       = Fulfilled m
     ∧ selection m = (js "a b c d e", js "gpt-4", 0.75, verified_selection).
Proof.
  destruct (verification_fallback scripted segment1 (candidateA "a b c d e")
              (candidateB "a b c d") (js "Spanish") [Rejected (ApiError (js "timeout"))])
    as [Hmerge _].
  destruct Hmerge as (m & Hm & Hthrow & _); [by vm_compute|by vm_compute|].
  exists m. split; [exact Hm|]. by apply Hthrow.
Defined.

(** C2, a reply outside "A" and "B": the arbiter answers "C", and the merge
    returns candidate B's text with confidence 0.85, not candidate A's with
    0.75. *)
Lemma unparseable_reply_selects_B :
  ∃ m, outcome (run scripted
                  (mergeTranslations segment1 (candidateA "a b c d e")
                     (candidateB "a b c d") (js "Spanish")) [answer "C"])
       = Fulfilled m
     ∧ selection m = (js "a b c d", js "gpt-4-turbo", 0.85, verified_selection)
     ∧ m_text m ≠ js "a b c d e"
     ∧ ¬ m_confidence m == 0.75.
Proof. eexists. split; [by vm_compute|]. by vm_compute. Qed.

(** Two pairs with different scores, 1 and 11/12, both in the
    [high_agreement] regime: the confidence is 0.95 for both. *)
Lemma confidence_by_regime_witness :
  ∃ m1 m2,
    outcome (run scripted
               (mergeTranslations segment1 (candidateA "x") (candidateB "x") (js "Spanish")) [])
    = Fulfilled m1
    ∧ outcome (run scripted
                 (mergeTranslations segment2 (candidateA "a b c d e f g h i j k")
                    (candidateB "a b c d e f g h i j k l") (js "French")) [])
      = Fulfilled m2
    ∧ ¬ comparisonScore m1 == comparisonScore m2
    ∧ m_confidence m1 = 0.95 ∧ m_confidence m2 = 0.95.
Proof.
  destruct (confidence_by_regime (W1:=list Completion) (W2:=list Completion)
              scripted scripted
              segment1 (candidateA "x") (candidateB "x") (js "Spanish") []
              segment2 (candidateA "a b c d e f g h i j k")
              (candidateB "a b c d e f g h i j k l") (js "French") [])
    as (m1 & m2 & Hm1 & Hm2 & _ & Hhigh & _); [by vm_compute|].
  exists m1, m2. split; [exact Hm1|]. split; [exact Hm2|]. split.
  - vm_compute in Hm1, Hm2. injection Hm1 as <-. injection Hm2 as <-. by vm_compute.
  - apply Hhigh. by vm_compute.
Defined.

(** C3, inside the [verified_selection] regime: the same pair of candidates
    (score 0.8) merged twice, once with the arbiter answering "A" and once
    with the verification request rejected, gives the confidences 0.85 and
    0.75. *)
Lemma verified_selection_confidence_varies :
  ∃ m1 m2,
    outcome (run scripted
               (mergeTranslations segment1 (candidateA "a b c d e") (candidateB "a b c d")
                  (js "Spanish")) [answer "A"])
    = Fulfilled m1
    ∧ outcome (run scripted
                 (mergeTranslations segment1 (candidateA "a b c d e") (candidateB "a b c d")
                    (js "Spanish")) [Rejected (ApiError (js "timeout"))])
      = Fulfilled m2
    ∧ comparisonScore m1 = comparisonScore m2
    ∧ mergeStrategy (m_metadata m1) = mergeStrategy (m_metadata m2)
    ∧ m_confidence m1 = 0.85 ∧ m_confidence m2 = 0.75
    ∧ ¬ m_confidence m1 == m_confidence m2.
Proof. do 2 eexists. split; [by vm_compute|]. split; [by vm_compute|]. by vm_compute. Qed.




(** Two segments, both translated in high agreement: two results, in the
    order of the segments. *)
Lemma order_preserved_witness :
  ∃ m1 m3,
    outcome (run scripted (translateWithContext [segment1; segment3] (js "es") emptyContext)
               agreeingScript) = Fulfilled [m1; m3]
    ∧ m_text m1 = js "Hola, ciudadanos." ∧ m_text m3 = js "Gracias."
    ∧ length [m1; m3] = length [segment1; segment3]
    ∧ outcome (run scripted (batchTranslate [segment1; segment3] (js "es") emptyContext)
                 agreeingScript) = Fulfilled [m1; m3].
Proof.
  do 2 eexists.
  assert (Hrun : outcome (run scripted
                            (translateWithContext [segment1; segment3] (js "es") emptyContext)
                            agreeingScript) = Fulfilled [_; _]) by (by vm_compute).
  destruct (order_preserved scripted [segment1; segment3] (js "es") emptyContext
              agreeingScript _ Hrun)
    as (Hlen & _ & _ & _ & Hbatch).
  split; [exact Hrun|]. split; [by vm_compute|]. split; [by vm_compute|].
  split; [exact Hlen|exact Hbatch].
Defined.

(** The loop body on scenario 1: the text kept is provider A's, under
    provider A's label. *)
Lemma merged_text_is_a_candidate_witness :
  ∃ m, outcome (run scripted
                  (translateSegment segment1 (js "Spanish")
                     (buildContextPrompt emptyContext (js "Spanish")))
                  [answer "Hola, ciudadanos."; answer "Hola, ciudadanos."])
       = Fulfilled m
     ∧ ((m_text m = translatedText (gpt4Result (m_metadata m))
         ∧ primaryModel m = model (gpt4Result (m_metadata m)))
        ∨ (m_text m = translatedText (geminiResult (m_metadata m))
           ∧ primaryModel m = model (geminiResult (m_metadata m)))).
Proof.
  eexists.
  assert (Hrun : outcome (run scripted
                            (translateSegment segment1 (js "Spanish")
                               (buildContextPrompt emptyContext (js "Spanish")))
                            [answer "Hola, ciudadanos."; answer "Hola, ciudadanos."])
                 = Fulfilled _) by (by vm_compute).
  split; [exact Hrun|].
  destruct (merged_text_is_a_candidate scripted segment1
              (candidateA "Hola, ciudadanos.") (candidateB "Hola, ciudadanos.")
              (js "Spanish") [answer "Hola, ciudadanos."; answer "Hola, ciudadanos."])
    as [_ Hseg].
  exact (Hseg _ _ Hrun).
Defined.

(** A confidence of 0.95 is approved, one of 0.85 needs review. *)
Lemma qaStatus_thresholds_witness :
  qaStatus 0.95 = approved ∧ qaStatus 0.85 = needs_review ∧ qaStatus 0.7 = flagged.
Proof.
  destruct (qaStatus_thresholds 0.95) as (Hhigh & _).
  destruct (qaStatus_thresholds 0.85) as (_ & Hmid & _).
  destruct (qaStatus_thresholds 0.7) as (_ & _ & Hlow & _).
  split_and!; [apply Hhigh|apply Hmid|apply Hlow]; by vm_compute.
Defined.

(** C8, the boundaries: a confidence of exactly 0.90 is not approved and one
    of exactly 0.80 is not sent to review. *)
Lemma qaStatus_boundaries_exclusive :
  qaStatus 0.9 = needs_review ∧ qaStatus 0.9 ≠ approved
  ∧ qaStatus 0.8 = flagged ∧ qaStatus 0.8 ≠ needs_review.
Proof. by vm_compute. Qed.

(** * Further properties *)

(** ** Requests of the merge and of the loop *)

Section Requests.

Context {caseMapping : CaseMapping} {W : Type} (api : W → Request → Completion * W).

Lemma mergeStrategy_regime segment a b targetLanguage w m :
  outcome (run api (mergeTranslations segment a b targetLanguage) w) = Fulfilled m →
  mergeStrategy (m_metadata m)
  = regime (calculateSimilarity (translatedText a) (translatedText b)).
Proof.
  intros Hm.
  destruct (run_mergeTranslations api segment a b targetLanguage w)
    as (m' & Hm' & _ & _ & _ & Hhigh & Hlow & _).
  rewrite Hm in Hm'. injection Hm' as <-.
  destruct (regime_cases (calculateSimilarity (translatedText a) (translatedText b)))
    as [[H ->]|[(H1 & H2 & ->)|[H ->]]].
  - specialize (Hhigh H). by injection Hhigh.
  - by eapply verified_strategy.
  - specialize (Hlow H). by injection Hlow.
Qed.

Lemma calls_mergeTranslations_regime segment a b targetLanguage w :
  let request := verifyRequest (text segment) (translatedText a) (translatedText b)
                   targetLanguage in
  calls (run api (mergeTranslations segment a b targetLanguage) w)
  = match regime (calculateSimilarity (translatedText a) (translatedText b)) with
    | verified_selection => [(request, (api w request).1)]
    | _ => []
    end.
Proof.
  intros request. unfold mergeTranslations.
  set (s := calculateSimilarity (translatedText a) (translatedText b)).
  destruct (s >? 0.9) eqn:Hhigh; [|destruct (s >? 0.7) eqn:Hmid].
  - apply Qgtb_true in Hhigh. by rewrite (regime_high s Hhigh).
  - apply Qgtb_false in Hhigh. apply Qgtb_true in Hmid.
    rewrite (regime_verified s Hmid Hhigh).
    destruct (run_verifyTranslation api (text segment) (translatedText a)
                (translatedText b) targetLanguage w) as (v & Hrun & _).
    rewrite !run_bind, Hrun. done.
  - apply Qgtb_false in Hmid. by rewrite (regime_low s Hmid).
Qed.

(** The verification arbiter is called in the middle band and nowhere else:
    [mergeTranslations] sends the verification request, once, when the
    similarity is above 0.70 and at most 0.90, and sends nothing otherwise. *)
Theorem verification_only_in_band segment a b targetLanguage w :
  let request := verifyRequest (text segment) (translatedText a) (translatedText b)
                   targetLanguage in
  calls (run api (mergeTranslations segment a b targetLanguage) w)
  = match regime (calculateSimilarity (translatedText a) (translatedText b)) with
    | verified_selection => [(request, (api w request).1)]
    | _ => []
    end.
Proof. apply calls_mergeTranslations_regime. Qed.

Lemma mergeTranslations_invariant segment a b targetLanguage w m :
  outcome (run api (mergeTranslations segment a b targetLanguage) w) = Fulfilled m →
  mergedInvariant m.
Proof.
  intros Hm.
  destruct (run_mergeTranslations api segment a b targetLanguage w)
    as (m' & Hm' & Hs & Ha & Hb & Hhigh & Hlow & Hmid).
  rewrite Hm in Hm'. injection Hm' as <-.
  unfold mergedInvariant. rewrite Ha, Hb. split; [done|].
  split; [rewrite Hs; apply calculateSimilarity_bounds|].
  set (s := calculateSimilarity (translatedText a) (translatedText b)) in *.
  set (c := (api w _).1) in *.
  destruct (regime_cases s) as [[H _]|[(H1 & H2 & _)|[H _]]].
  - specialize (Hhigh H). injection Hhigh as _ _ ? ?. by left.
  - right; left. destruct (Hmid H1 H2) as (Hthrow & HA & HB). destruct (throws c).
    + specialize (Hthrow eq_refl). injection Hthrow as _ _ ? ?. split; [by right|done].
    + destruct (decide (arbiterChoice c = Some (js "A"))) as [Hch|Hch].
      * specialize (HA eq_refl Hch). injection HA as _ _ ? ?. split; [by left|done].
      * specialize (HB eq_refl Hch). injection HB as _ _ ? ?. split; [by left|done].
  - specialize (Hlow H). injection Hlow as _ _ ? ?. by right; right.
Qed.

(** A result of the loop body is the merge of two provider results carrying
    the providers' labels. *)
Lemma translateSegment_merge segment targetLanguage contextPrompt w m :
  outcome (run api (translateSegment segment targetLanguage contextPrompt) w) = Fulfilled m →
  ∃ a b w', model a = js "gpt-4" ∧ model b = js "gpt-4-turbo"
          ∧ outcome (run api (mergeTranslations segment a b targetLanguage) w') = Fulfilled m.
Proof.
  destruct (run_translateSegment api segment targetLanguage contextPrompt w) as [Hbad Hgood].
  cbv zeta in Hbad, Hgood.
  destruct (throws _ || throws _).
  - destruct (Hbad eq_refl) as [e ->]. done.
  - destruct (Hgood eq_refl) as (a & b & Ha & Hb & ->). unfold called. simpl. eauto 10.
Qed.

Lemma translateLoop_invariant segments targetLanguage contextPrompt w out :
  outcome (run api (translateLoop segments targetLanguage contextPrompt []) w)
  = Fulfilled out →
  Forall mergedInvariant out.
Proof.
  intros (ms & -> & Hall)%translateLoop_fulfilled. simpl.
  induction Hall as [|segment m segments ms (w' & Hm) _ IH]; constructor; [|done].
  apply translateSegment_merge in Hm as (a & b & w'' & _ & _ & Hm).
  by eapply mergeTranslations_invariant.
Qed.

(** Every merged translation that [translateWithContext] or [batchTranslate]
    returns keeps the invariant: its comparison score is the similarity of
    the two provider texts stored in its metadata and lies in [0,1], and its
    confidence is one of four levels that tells the strategy - 0.95 with
    [high_agreement], 0.85 or 0.75 with [verified_selection], 0.70 with
    [low_agreement_flagged]. *)
Theorem results_keep_invariant segments targetLanguageCode context w results :
  outcome (run api (translateWithContext segments targetLanguageCode context) w)
  = Fulfilled results
  ∨ outcome (run api (batchTranslate segments targetLanguageCode context) w)
    = Fulfilled results →
  Forall mergedInvariant results.
Proof.
  rewrite run_batchTranslate. intros [H|H]; by eapply translateLoop_invariant.
Qed.

Lemma translateSegment_calls_length segment targetLanguage contextPrompt w m :
  outcome (run api (translateSegment segment targetLanguage contextPrompt) w) = Fulfilled m →
  length (calls (run api (translateSegment segment targetLanguage contextPrompt) w))
  = (2 + verifiedCount [m])%nat.
Proof.
  destruct (run_translateSegment api segment targetLanguage contextPrompt w) as [Hbad Hgood].
  cbv zeta in Hbad, Hgood.
  destruct (throws _ || throws _).
  - destruct (Hbad eq_refl) as [e ->]. done.
  - destruct (Hgood eq_refl) as (a & b & _ & _ & ->). clear Hbad Hgood.
    unfold called. simpl. intros Hm.
    rewrite calls_mergeTranslations_regime, <- (mergeStrategy_regime _ _ _ _ _ _ Hm).
    unfold verifiedCount. simpl.
    by destruct (mergeStrategy (m_metadata m)).
Qed.

Lemma verifiedCount_app l1 l2 :
  verifiedCount (l1 ++ l2) = (verifiedCount l1 + verifiedCount l2)%nat.
Proof. unfold verifiedCount. by rewrite List.filter_app, length_app. Qed.

Lemma translateLoop_calls_length segments targetLanguage contextPrompt results w out :
  outcome (run api (translateLoop segments targetLanguage contextPrompt results) w)
  = Fulfilled out →
  ∃ ms, out = results ++ ms
      ∧ length (calls (run api (translateLoop segments targetLanguage contextPrompt
                                  results) w))
        = (2 * length segments + verifiedCount ms)%nat.
Proof.
  revert results w. induction segments as [|segment rest IH]; intros results w.
  - simpl. intros [= <-]. exists []. by rewrite app_nil_r.
  - rewrite run_translateLoop_cons. cbv zeta.
    pose proof (translateSegment_calls_length segment targetLanguage contextPrompt w) as Hseg.
    destruct (run api (translateSegment segment targetLanguage contextPrompt) w)
      as [[merged|e] tr w1]; simpl in *; [|done].
    intros (ms & -> & Hlen)%IH. exists (merged :: ms). split; [by rewrite <- app_assoc|].
    rewrite length_app, Hlen, (Hseg merged eq_refl).
    change (merged :: ms) with ([merged] ++ ms). rewrite verifiedCount_app. lia.
Qed.

(** A successful call sends exactly two translation requests for each
    segment and one verification request for each result merged by
    [verified_selection]: between 2N and 3N requests for N segments, and
    none for an empty list. *)
Theorem request_count segments targetLanguageCode context w results :
  outcome (run api (translateWithContext segments targetLanguageCode context) w)
  = Fulfilled results →
  length (calls (run api (translateWithContext segments targetLanguageCode context) w))
  = (2 * length segments + verifiedCount results)%nat
  ∧ (verifiedCount results ≤ length segments)%nat.
Proof.
  intros Hrun. pose proof Hrun as (ms & Hms & Hlen)%translateLoop_calls_length.
  simpl in Hms. subst ms. split; [done|].
  apply translateLoop_fulfilled in Hrun as (ms & Hms & Hall). simpl in Hms. subst ms.
  rewrite (Forall2_length _ _ _ Hall). unfold verifiedCount.
  apply List.filter_length_le.
Qed.

(** The loop stops at the first failure: when it raises, the last two
    requests sent are the translation requests of one segment, of which one
    failed, the requests before them are those of the segments ahead of it,
    and nothing is sent for the segments after it. *)
Lemma translateLoop_stops segments targetLanguage contextPrompt results w e :
  outcome (run api (translateLoop segments targetLanguage contextPrompt results) w)
  = Raised e →
  ∃ before failing later earlier c1 c2,
    segments = before ++ failing :: later
    ∧ calls (run api (translateLoop segments targetLanguage contextPrompt results) w)
      = earlier ++ [(translateRequest 0.3 failing targetLanguage contextPrompt, c1);
                    (translateRequest 0.5 failing targetLanguage contextPrompt, c2)]
    ∧ throws c1 || throws c2 = true
    ∧ translateRequests earlier = flat_map (requestsFor targetLanguage contextPrompt) before.
Proof.
  revert results w. induction segments as [|segment rest IH]; intros results w.
  - done.
  - rewrite run_translateLoop_cons. cbv zeta.
    destruct (run_translateSegment api segment targetLanguage contextPrompt w) as [Hbad Hgood].
    cbv zeta in Hbad, Hgood.
    destruct (throws _ || throws _) eqn:Hthrows.
    + destruct (Hbad eq_refl) as [e' ->]. simpl. intros _.
      exists [], segment, rest, []. do 2 eexists. by split_and!.
    + destruct (Hgood eq_refl) as (a & b & _ & _ & ->). clear Hbad Hgood.
      pose proof (translateRequests_mergeTranslations api segment a b targetLanguage
                    (api (api w (translateRequest 0.3 segment targetLanguage contextPrompt)).2
                       (translateRequest 0.5 segment targetLanguage contextPrompt)).2) as Hm.
      destruct (run_mergeTranslations api segment a b targetLanguage
                  (api (api w (translateRequest 0.3 segment targetLanguage contextPrompt)).2
                     (translateRequest 0.5 segment targetLanguage contextPrompt)).2)
        as (merged & Hfm & _).
      destruct (run api (mergeTranslations segment a b targetLanguage) _)
        as [o tr w1]; simpl in Hm, Hfm |- *. subst o. simpl.
      intros (before & failing & later & earlier & c1 & c2 & -> & -> & Hth & Hreq)%IH.
      exists (segment :: before), failing, later. eexists (_ :: _ :: tr ++ earlier), c1, c2.
      split_and!; [done| |done|].
      * simpl. by rewrite app_assoc.
      * change (?x :: ?y :: tr ++ earlier) with ([x; y] ++ tr ++ earlier).
        rewrite !translateRequests_app, Hm, Hreq. done.
Qed.

(** When a call raises it has stopped at the failing segment: the last two
    requests are the translation requests of that segment, one of which
    failed, and no request was sent for any later segment. *)
Theorem stops_at_first_failure segments targetLanguageCode context w e :
  let targetLanguage :=
    orString (property languageMap targetLanguageCode) targetLanguageCode in
  let contextPrompt := buildContextPrompt context targetLanguage in
  outcome (run api (translateWithContext segments targetLanguageCode context) w)
  = Raised e →
  ∃ before failing later earlier c1 c2,
    segments = before ++ failing :: later
    ∧ calls (run api (translateWithContext segments targetLanguageCode context) w)
      = earlier ++ [(translateRequest 0.3 failing targetLanguage contextPrompt, c1);
                    (translateRequest 0.5 failing targetLanguage contextPrompt, c2)]
    ∧ throws c1 || throws c2 = true
    ∧ translateRequests earlier = flat_map (requestsFor targetLanguage contextPrompt) before.
Proof. intros targetLanguage contextPrompt. apply translateLoop_stops. Qed.

Lemma translateSegment_calls segment targetLanguage contextPrompt w ev :
  ev ∈ calls (run api (translateSegment segment targetLanguage contextPrompt) w) →
  ev.1 ∈ requestsFor targetLanguage contextPrompt segment
  ∨ ∃ a b, ev.1 = verifyRequest (text segment) a b targetLanguage.
Proof.
  destruct (run_translateSegment api segment targetLanguage contextPrompt w) as [Hbad Hgood].
  cbv zeta in Hbad, Hgood. unfold requestsFor.
  destruct (throws _ || throws _).
  - destruct (Hbad eq_refl) as [e ->]. simpl.
    rewrite !elem_of_cons, elem_of_nil. intros [->|[->|[]]]; left; simpl; auto.
  - destruct (Hgood eq_refl) as (a & b & _ & _ & ->). clear Hbad Hgood.
    unfold called. simpl. rewrite calls_mergeTranslations_regime.
    rewrite !elem_of_cons. intros [->|[->|Hev]]; [left; simpl; auto..|].
    destruct (regime _); try by apply elem_of_nil in Hev.
    apply list_elem_of_singleton in Hev as ->. right. simpl. eauto.
Qed.

Lemma translateLoop_calls segments targetLanguage contextPrompt results w ev :
  ev ∈ calls (run api (translateLoop segments targetLanguage contextPrompt results) w) →
  ∃ segment, segment ∈ segments
    ∧ (ev.1 ∈ requestsFor targetLanguage contextPrompt segment
       ∨ ∃ a b, ev.1 = verifyRequest (text segment) a b targetLanguage).
Proof.
  revert results w. induction segments as [|segment rest IH]; intros results w.
  - simpl. by intros ?%elem_of_nil.
  - rewrite run_translateLoop_cons. cbv zeta.
    pose proof (translateSegment_calls segment targetLanguage contextPrompt w ev) as Hseg.
    destruct (run api (translateSegment segment targetLanguage contextPrompt) w)
      as [[merged|e] tr w1]; simpl in *.
    + rewrite elem_of_app. intros [Hev|Hev].
      * exists segment. split; [apply list_elem_of_here|auto].
      * apply IH in Hev as (segment' & Hin & H). exists segment'.
        split; [by apply list_elem_of_further|done].
    + intros Hev. exists segment. split; [apply list_elem_of_here|auto].
Qed.

(** Every request of a call, successful or not, belongs to one of its
    segments: it is one of the two translation requests of that segment,
    built from the one prompt and target language of the call, or a
    verification request for that segment's text and the same target
    language. *)
Theorem requests_share_prompt segments targetLanguageCode context w ev :
  let targetLanguage :=
    orString (property languageMap targetLanguageCode) targetLanguageCode in
  let contextPrompt := buildContextPrompt context targetLanguage in
  ev ∈ calls (run api (translateWithContext segments targetLanguageCode context) w) →
  ∃ segment, segment ∈ segments
    ∧ (ev.1 ∈ requestsFor targetLanguage contextPrompt segment
       ∨ ∃ a b, ev.1 = verifyRequest (text segment) a b targetLanguage).
Proof. intros targetLanguage contextPrompt. apply translateLoop_calls. Qed.

End Requests.

(** ** The extremes of the similarity score *)

Lemma num_inj a b : num a == num b ↔ a = b.
Proof. unfold num. rewrite inject_Z_injective. lia. Qed.

Lemma num_nonzero b : (0 < b)%nat → ¬ num b == 0.
Proof.
  intros Hb H. pose proof (num_pos b Hb) as Hpos. rewrite H in Hpos.
  by apply Qlt_irrefl in Hpos.
Qed.

Lemma num_div_eq_1 a b : (0 < b)%nat → num a / num b == 1 ↔ a = b.
Proof.
  intros Hb. split.
  - intros H. apply num_inj. rewrite <- (Qmult_div_r (num a) (num b) (num_nonzero b Hb)), H.
    apply Qmult_1_r.
  - intros ->. by apply num_div_same.
Qed.

Lemma num_div_eq_0 a b : (0 < b)%nat → num a / num b == 0 ↔ a = 0%nat.
Proof.
  intros Hb. split.
  - intros H. apply num_inj. rewrite <- (Qmult_div_r (num a) (num b) (num_nonzero b Hb)), H.
    apply Qmult_0_r.
  - intros ->. unfold Qdiv. apply Qmult_0_l.
Qed.

Section SimilarityExtremes.

Context {caseMapping : CaseMapping}.

Lemma similarity_one_or_zero text1 text2 :
  (calculateSimilarity text1 text2 == 1 ↔ tokenSet text1 = tokenSet text2)
  ∧ (calculateSimilarity text1 text2 == 0 ↔ tokenSet text1 ∩ tokenSet text2 = ∅).
Proof.
  rewrite calculateSimilarity_tokenSets.
  rewrite (num_div_eq_1 _ _ (union_size_pos text1 text2)).
  rewrite (num_div_eq_0 _ _ (union_size_pos text1 text2)).
  split.
  - split.
    + intros Hsize.
      assert (Heq : tokenSet text1 ∩ tokenSet text2 = tokenSet text1 ∪ tokenSet text2).
      { apply set_subseteq_size_eq; [set_solver|lia]. }
      apply set_eq. intros x. split; intros Hx.
      * assert (x ∈ tokenSet text1 ∩ tokenSet text2) by (rewrite Heq; set_solver).
        set_solver.
      * assert (x ∈ tokenSet text1 ∩ tokenSet text2) by (rewrite Heq; set_solver).
        set_solver.
    + intros ->. f_equal. set_solver.
  - rewrite size_empty_iff. by unfold_leibniz.
Qed.

(** The score is 1 exactly when the two texts have the same set of
    lower-cased fields - they may differ in letter case, in the order and
    repetition of words and in the white space between words - and it is 0
    exactly when they share no field. *)
Theorem similarity_extremes text1 text2 :
  (calculateSimilarity text1 text2 == 1 ↔ tokenSet text1 = tokenSet text2)
  ∧ (calculateSimilarity text1 text2 == 0 ↔ tokenSet text1 ∩ tokenSet text2 = ∅).
Proof. apply similarity_one_or_zero. Qed.

End SimilarityExtremes.

Section Agreement.

Context {caseMapping : CaseMapping} {W : Type} (api : W → Request → Completion * W).

(** Two candidates with the same set of lower-cased fields are merged by
    [high_agreement]: the result is provider A's text under the label gpt-4
    with confidence 0.95, and no verification request is sent. *)
Theorem same_tokens_high_agreement segment a b targetLanguage w :
  tokenSet (translatedText a) = tokenSet (translatedText b) →
  ∃ m, outcome (run api (mergeTranslations segment a b targetLanguage) w) = Fulfilled m
     ∧ selection m = (translatedText a, js "gpt-4", 0.95, high_agreement)
     ∧ calls (run api (mergeTranslations segment a b targetLanguage) w) = [].
Proof.
  intros Htokens%similarity_one_or_zero.
  assert (Hhigh : 0.9 < calculateSimilarity (translatedText a) (translatedText b))
    by (by rewrite Htokens).
  destruct (run_mergeTranslations api segment a b targetLanguage w)
    as (m & Hm & _ & _ & _ & Hsel & _).
  exists m. split; [done|]. split; [by apply Hsel|].
  by rewrite calls_mergeTranslations_regime, (regime_high _ Hhigh).
Qed.

End Agreement.

(** ** Trimming and fields *)

Lemma trimStart_clean s : startsClean (trimStart s).
Proof.
  induction s as [|c r IH]; simpl; [done|].
  destruct (isWhiteSpace c) eqn:Hc; [done|]. simpl. done.
Qed.

Lemma trimStart_id s : startsClean s → trimStart s = s.
Proof. destruct s as [|c r]; simpl; [done|]. by intros ->. Qed.

(** [trimStart] drops a prefix of white space. *)
Lemma trimStart_suffix s :
  ∃ p, s = p ++ trimStart s ∧ Forall (fun c => isWhiteSpace c = true) p.
Proof.
  induction s as [|c r (p & Hp & Hws)]; simpl.
  - by exists [].
  - destruct (isWhiteSpace c) eqn:Hc.
    + exists (c :: p). split; [by rewrite Hp at 1|by constructor].
    + by exists [].
Qed.

Lemma trimEnd_prefix s :
  ∃ q, s = trimEnd s ++ q ∧ Forall (fun c => isWhiteSpace c = true) q.
Proof.
  destruct (trimStart_suffix (rev s)) as (p & Hp & Hws).
  exists (rev p). split.
  - unfold trimEnd. rewrite <- rev_app_distr, <- Hp. by rewrite rev_involutive.
  - by apply Forall_rev.
Qed.

Lemma trimEnd_clean s : startsClean (rev (trimEnd s)).
Proof. unfold trimEnd. rewrite rev_involutive. apply trimStart_clean. Qed.

Lemma trimEnd_keeps_start s : startsClean s → startsClean (trimEnd s).
Proof.
  intros Hs. destruct (trimEnd_prefix s) as (q & Hq & _).
  destruct (trimEnd s) as [|c r]; [done|]. rewrite Hq in Hs. done.
Qed.

Lemma trimEnd_id s : startsClean (rev s) → trimEnd s = s.
Proof. intros H. unfold trimEnd. by rewrite (trimStart_id _ H), rev_involutive. Qed.

Lemma trim_trimmed s : trimmed (trim s).
Proof.
  split; [apply trimEnd_keeps_start, trimStart_clean|apply trimEnd_clean].
Qed.

Lemma trim_id s : trimmed s → trim s = s.
Proof. intros [H1 H2]. unfold trim. by rewrite (trimStart_id _ H1), (trimEnd_id _ H2). Qed.

Lemma trimmedOrEmpty_trimmed content : trimmed (trimmedOrEmpty content).
Proof. destruct content; [apply trim_trimmed|done]. Qed.

Lemma startsClean_rev_tail c r : r ≠ [] → startsClean (rev (c :: r)) → startsClean (rev r).
Proof.
  intros Hr. simpl. destruct (rev r) as [|x xs] eqn:Hrev; [|done].
  apply (f_equal (@rev N)) in Hrev. rewrite rev_involutive in Hrev. done.
Qed.

(** Fields never contain white space. *)
Lemma splitFrom_clean cur inGap s :
  Forall (fun c => isWhiteSpace c = false) cur →
  Forall (Forall (fun c => isWhiteSpace c = false)) (splitFrom cur inGap s).
Proof.
  revert cur inGap. induction s as [|c r IH]; intros cur inGap Hcur; simpl.
  - constructor; [by apply Forall_rev|constructor].
  - destruct (isWhiteSpace c) eqn:Hc.
    + destruct inGap; [by apply IH|]. constructor; [by apply Forall_rev|by apply IH].
    + apply IH. by constructor.
Qed.

(** No field is empty when the string ends without white space and the
    field being read, if it is empty, is followed by a character. *)
Lemma splitFrom_nonempty_fields cur inGap s :
  inGap = true ∨ cur ≠ [] ∨ (s ≠ [] ∧ startsClean s) →
  startsClean (rev s) →
  (s = [] → cur ≠ []) →
  Forall (fun f => f ≠ []) (splitFrom cur inGap s).
Proof.
  revert cur inGap. induction s as [|c r IH]; intros cur inGap Hstart Hend Hlast; simpl.
  - constructor; [|constructor]. intros Hrev. apply (Hlast eq_refl).
    apply (f_equal (@rev N)) in Hrev. by rewrite rev_involutive in Hrev.
  - assert (Hr : isWhiteSpace c = true → r ≠ []).
    { intros Hc ->. simpl in Hend. congruence. }
    assert (Hend' : r ≠ [] → startsClean (rev r)) by (intros H; by eapply startsClean_rev_tail).
    destruct (isWhiteSpace c) eqn:Hc.
    + specialize (Hr eq_refl).
      assert (Hrest : Forall (fun f => f ≠ []) (splitFrom [] true r))
        by (apply IH; [by left|by apply Hend'|done]).
      destruct inGap; [done|]. constructor; [|done].
      destruct Hstart as [?|[Hcur|[_ Hclean]]]; [done| |simpl in Hclean; congruence].
      intros Hrev. apply Hcur. apply (f_equal (@rev N)) in Hrev.
      by rewrite rev_involutive in Hrev.
    + apply IH; [right; by left| |done].
      destruct r; [done|by apply Hend'].
Qed.

(** The fields of a non-empty string without white space at its ends are
    words. *)
Lemma split_words_of_trimmed s : trimmed s → s ≠ [] → Forall isWord (split s).
Proof.
  intros [Hstart Hend] Hne.
  unfold isWord, split. apply Forall_and. split.
  - apply splitFrom_nonempty_fields; auto.
  - apply splitFrom_clean. constructor.
Qed.

(** ** The provider functions *)

Section Providers.

Context {W : Type} (api : W → Request → Completion * W).

Lemma run_translateWithGPT4 segment targetLanguage contextPrompt w :
  let request := translateRequest 0.3 segment targetLanguage contextPrompt in
  run api (translateWithGPT4 segment targetLanguage contextPrompt) w
  = {| outcome := providerOutcome (js "gpt-4") 0.9 targetLanguage (api w request).1;
       calls := [(request, (api w request).1)];
       world := (api w request).2 |}.
Proof.
  intros request. unfold translateWithGPT4. rewrite run_tryCatch_rethrow.
  unfold create. simpl. fold request.
  by destruct (api w request) as [[e|[|content rest]] w1].
Qed.

Lemma run_translateWithGPT4Turbo segment targetLanguage contextPrompt w :
  let request := translateRequest 0.5 segment targetLanguage contextPrompt in
  run api (translateWithGPT4Turbo segment targetLanguage contextPrompt) w
  = {| outcome := providerOutcome (js "gpt-4-turbo") 0.85 targetLanguage (api w request).1;
       calls := [(request, (api w request).1)];
       world := (api w request).2 |}.
Proof.
  intros request. unfold translateWithGPT4Turbo. rewrite run_tryCatch_rethrow.
  unfold create. simpl. fold request.
  by destruct (api w request) as [[e|[|content rest]] w1].
Qed.

(** Each provider function sends one request.  It raises exactly when the
    request is rejected or the completion has no choice; otherwise it
    returns the content of the first choice, trimmed (the empty text for a
    [null] content), under the provider's label and base confidence (gpt-4
    and 0.9, gpt-4-turbo and 0.85), with the number of fields of the text as
    word count. *)
Theorem provider_call_outcome segment targetLanguage contextPrompt w :
  let request1 := translateRequest 0.3 segment targetLanguage contextPrompt in
  let request2 := translateRequest 0.5 segment targetLanguage contextPrompt in
  run api (translateWithGPT4 segment targetLanguage contextPrompt) w
  = {| outcome := providerOutcome (js "gpt-4") 0.9 targetLanguage (api w request1).1;
       calls := [(request1, (api w request1).1)];
       world := (api w request1).2 |}
  ∧ run api (translateWithGPT4Turbo segment targetLanguage contextPrompt) w
    = {| outcome := providerOutcome (js "gpt-4-turbo") 0.85 targetLanguage (api w request2).1;
         calls := [(request2, (api w request2).1)];
         world := (api w request2).2 |}.
Proof. split; [apply run_translateWithGPT4|apply run_translateWithGPT4Turbo]. Qed.

Lemma providerResult_shape label base targetLanguage content :
  let r := providerResult label base targetLanguage content in
  trimmed (translatedText r)
  ∧ trim (translatedText r) = translatedText r
  ∧ (translatedText r ≠ [] → Forall isWord (split (translatedText r)))
  ∧ ∃ md, metadata r = Some md
        ∧ wordCount md = length (split (translatedText r))
        ∧ (1 ≤ wordCount md)%nat
        ∧ (translatedText r = [] → wordCount md = 1%nat)
        ∧ estimatedDuration md = Some (estimateDuration (translatedText r) targetLanguage).
Proof.
  intros r. simpl.
  pose proof (trimmedOrEmpty_trimmed content) as Htrim.
  split; [done|]. split; [by apply trim_id|].
  split; [by apply split_words_of_trimmed|].
  eexists. split; [done|]. simpl. split_and!; try done.
  - pose proof (split_nonempty (trimmedOrEmpty content)).
    destruct (split (trimmedOrEmpty content)); [done|simpl; lia].
  - by intros ->.
Qed.

(** The text a provider function returns has no white space at either end;
    when it is not empty its fields are words, so that the word count is
    the number of words; the empty text counts as one word.  The estimate
    of the duration is made from that text. *)
Theorem provider_result_shape segment targetLanguage contextPrompt w r :
  outcome (run api (translateWithGPT4 segment targetLanguage contextPrompt) w) = Fulfilled r
  ∨ outcome (run api (translateWithGPT4Turbo segment targetLanguage contextPrompt) w)
    = Fulfilled r →
  trimmed (translatedText r)
  ∧ trim (translatedText r) = translatedText r
  ∧ (translatedText r ≠ [] → Forall isWord (split (translatedText r)))
  ∧ ∃ md, metadata r = Some md
        ∧ wordCount md = length (split (translatedText r))
        ∧ (1 ≤ wordCount md)%nat
        ∧ (translatedText r = [] → wordCount md = 1%nat)
        ∧ estimatedDuration md = Some (estimateDuration (translatedText r) targetLanguage).
Proof.
  rewrite run_translateWithGPT4, run_translateWithGPT4Turbo. simpl.
  intros [H|H];
    (destruct (api w _).1 as [e|[|content rest]]; simpl in H; try done;
     injection H as <-; apply providerResult_shape).
Qed.

End Providers.

(** ** The duration estimate *)

Lemma property_elem {V : Type} (obj : list (jsstring * V)) key v :
  property obj key = Some v → (key, v) ∈ obj.
Proof.
  induction obj as [|[k v'] rest IH]; simpl; [done|].
  case_decide as Hk.
  - intros [= ->]. subst k. apply list_elem_of_here.
  - intros H. by apply list_elem_of_further, IH.
Qed.




(** A language name without an entry in the table is estimated at 175 words
    per minute, and one with an entry at the rate of its entry. *)
Lemma estimateDuration_rate text language :
  estimateDuration text language
  = num (length (split text))
    / match property speechRates language with Some r => r | None => 175 end * 60.
Proof.
  unfold estimateDuration.
  destruct (property speechRates language) as [r|] eqn:Hr; [|done].
  simpl. apply property_elem in Hr.
  assert (Htable : Forall (fun entry => Qeq_bool entry.2 0 = false) speechRates)
    by (repeat constructor).
  rewrite Forall_forall in Htable. specialize (Htable _ Hr). simpl in Htable.
  by rewrite Htable.
Qed.

(** ** Replies without text *)

Section BlankReplies.

Context {caseMapping : CaseMapping} {W : Type} (api : W → Request → Completion * W).

(** When neither provider call throws, the loop body merges the two provider
    results built from the first choices. *)
Lemma run_translateSegment_results segment targetLanguage contextPrompt w :
  let r1 := translateRequest 0.3 segment targetLanguage contextPrompt in
  let r2 := translateRequest 0.5 segment targetLanguage contextPrompt in
  let c1 := (api w r1).1 in
  let w1 := (api w r1).2 in
  let c2 := (api w1 r2).1 in
  let w2 := (api w1 r2).2 in
  throws c1 || throws c2 = false →
  run api (translateSegment segment targetLanguage contextPrompt) w
  = called (r1, c1) (called (r2, c2)
      (run api (mergeTranslations segment
                  (providerResult (js "gpt-4") 0.9 targetLanguage (firstChoice c1))
                  (providerResult (js "gpt-4-turbo") 0.85 targetLanguage (firstChoice c2))
                  targetLanguage) w2)).
Proof.
  intros r1 r2 c1 w1 c2 w2. subst c1 w1 c2 w2.
  unfold translateSegment. rewrite run_tryCatch_rethrow.
  unfold translateWithGPT4, translateWithGPT4Turbo, create. simpl.
  fold r1 r2. destruct (api w r1) as [c1 w1]. simpl.
  destruct (api w1 r2) as [c2 w2]. simpl.
  by destruct c1 as [e1|[|content1 rest1]], c2 as [e2|[|content2 rest2]].
Qed.

Lemma blankReply_spec c :
  blankReply c → throws c = false ∧ trimmedOrEmpty (firstChoice c) = [].
Proof. by destruct c as [e|[|content rest]]. Qed.

(** Replies without text are not failures.  When both providers reply with
    a [null] content or with white space only, the segment is translated to
    the empty text in [high_agreement], with confidence 0.95 and no
    verification request, and the controller's status for that confidence is
    'approved'. *)
Theorem blank_replies_are_approved segment targetLanguage contextPrompt w :
  let r1 := translateRequest 0.3 segment targetLanguage contextPrompt in
  let r2 := translateRequest 0.5 segment targetLanguage contextPrompt in
  let c1 := (api w r1).1 in
  let c2 := (api (api w r1).2 r2).1 in
  blankReply c1 → blankReply c2 →
  ∃ m, outcome (run api (translateSegment segment targetLanguage contextPrompt) w)
       = Fulfilled m
     ∧ selection m = ([], js "gpt-4", 0.95, high_agreement)
     ∧ qaStatus (m_confidence m) = approved
     ∧ calls (run api (translateSegment segment targetLanguage contextPrompt) w)
       = [(r1, c1); (r2, c2)].
Proof.
  intros r1 r2 c1 c2 [Ht1 Hb1]%blankReply_spec [Ht2 Hb2]%blankReply_spec.
  rewrite run_translateSegment_results by (fold r1 r2 c1 c2; by rewrite Ht1, Ht2).
  fold r1 r2 c1 c2. unfold called. simpl.
  set (a := providerResult (js "gpt-4") 0.9 targetLanguage (firstChoice c1)).
  set (b := providerResult (js "gpt-4-turbo") 0.85 targetLanguage (firstChoice c2)).
  assert (Hhigh : 0.9 < calculateSimilarity (translatedText a) (translatedText b)).
  { simpl. rewrite Hb1, Hb2, calculateSimilarity_same. done. }
  destruct (run_mergeTranslations api segment a b targetLanguage (api (api w r1).2 r2).2)
    as (m & Hm & _ & _ & _ & Hsel & _).
  specialize (Hsel Hhigh). simpl in Hsel. rewrite Hb1 in Hsel.
  exists m. split; [done|]. split; [done|]. split.
  - injection Hsel as _ _ -> _. done.
  - by rewrite calls_mergeTranslations_regime, (regime_high _ Hhigh).
Qed.

End BlankReplies.

(** ** The supported languages *)

Lemma property_is_Some {V : Type} (obj : list (jsstring * V)) key :
  is_Some (property obj key) ↔ key ∈ List.map fst obj.
Proof.
  induction obj as [|[k v] rest IH]; simpl.
  - split; [by intros [? ?]|by intros ?%elem_of_nil].
  - case_decide as Hk.
    + subst k. split; [intros _; apply list_elem_of_here|eauto].
    + rewrite IH, elem_of_cons. naive_solver.
Qed.

Lemma property_of_entry {V : Type} (obj : list (jsstring * V)) key v :
  NoDup (List.map fst obj) → (key, v) ∈ obj → property obj key = Some v.
Proof.
  induction obj as [|[k v'] rest IH]; simpl; [by intros _ ?%elem_of_nil|].
  intros [Hk Hnd]%NoDup_cons [[= -> ->]|Hin]%elem_of_cons.
  - by rewrite decide_True.
  - case_decide as Heq; [|by apply IH]. subst k. exfalso. apply Hk.
    apply list_elem_of_In, List.in_map_iff. exists (key, v).
    split; [done|by apply list_elem_of_In].
Qed.

(** [getSupportedLanguages] lists ten languages under distinct codes, and
    the list agrees with the translation call: a code is in the language map
    exactly when it is listed, and for a listed code [translateWithContext]
    names the target language by the listed name. *)
Theorem supported_languages_round_trip :
  length getSupportedLanguages = 10%nat
  ∧ NoDup (List.map code getSupportedLanguages)
  ∧ (∀ c, supported c = true ↔ c ∈ List.map code getSupportedLanguages)
  ∧ (∀ entry, entry ∈ getSupportedLanguages →
       orString (property languageMap (code entry)) (code entry) = name entry).
Proof.
  assert (Hcodes : List.map code getSupportedLanguages = List.map fst languageMap).
  { unfold getSupportedLanguages. rewrite List.map_map. done. }
  assert (Hnd : NoDup (List.map fst languageMap))
    by (apply (bool_decide_unpack _); by vm_compute).
  split; [done|]. split; [by rewrite Hcodes|]. split.
  - intros c. unfold supported. rewrite bool_decide_eq_true, Hcodes.
    apply property_is_Some.
  - intros entry Hin. apply list_elem_of_In, List.in_map_iff in Hin as ([k v] & <- & Hkv).
    cbn [code name fst snd]. apply list_elem_of_In in Hkv.
    rewrite (property_of_entry _ _ _ Hnd Hkv).
    assert (Hnames : Forall (fun e => e.2 ≠ []) languageMap) by (repeat constructor; done).
    rewrite Forall_forall in Hnames. specialize (Hnames _ Hkv). simpl in Hnames.
    by destruct v.
Qed.

(** ** The controller *)

Section Controller.

Context {caseMapping : CaseMapping} {W : Type} (api : W → Request → Completion * W).

(** Formatting succeeds when there is a segment for every translation, and
    copies the fields of both. *)
Lemma formatTranslations_fulfilled segments index translations w :
  (index + length translations ≤ length segments)%nat →
  ∃ fs, run api (formatTranslations segments index translations) w
        = {| outcome := Fulfilled fs; calls := []; world := w |}
      ∧ Forall2 formatsSegment (take (length translations) (drop index segments)) fs
      ∧ Forall2 formatsTranslation translations fs.
Proof.
  revert index. induction translations as [|trans rest IH]; intros index Hlen; simpl in *.
  - exists []. split; [done|]. split; constructor.
  - destruct (lookup_lt_is_Some_2 segments index) as [segment Hseg]; [lia|].
    rewrite Hseg. destruct (IH (S index)) as (fs & Hrun & Hsegs & Htrans); [lia|].
    rewrite run_bind, Hrun. simpl. eexists. split; [done|]. split.
    + rewrite (drop_S _ _ _ Hseg). simpl. constructor; [done|done].
    + constructor; [|done]. by repeat split.
Qed.

(** What [translateVideo] answers, case by case. *)
Lemma run_translateVideo body w :
  ∃ response,
    outcome (run api (translateVideo body) w) = Fulfilled response
    ∧ match body_targetLanguage body, body_segments body with
      | Some (c :: l), Some segments =>
          match outcome (run api (translateWithContext segments (c :: l)
                                    (default emptyContext (body_context body))) w) with
          | Fulfilled results =>
              ∃ fs, response = Translated (length segments) fs
                  ∧ Forall2 formatsSegment segments fs
                  ∧ Forall2 formatsTranslation results fs
          | Raised _ => response = ServerError
          end
      | _, _ => response = BadRequest
      end.
Proof.
  unfold translateVideo.
  destruct (body_targetLanguage body) as [[|c l]|]; [by eexists|..|by eexists].
  destruct (body_segments body) as [segments|]; [|by eexists].
  rewrite run_tryCatch, run_bind.
  destruct (run api (translateWithContext segments (c :: l) _) w)
    as [[results|e] tr w1] eqn:Hrun; simpl; [|by eexists].
  assert (Hlen : length results = length segments).
  { assert (Hout : outcome (run api (translateWithContext segments (c :: l)
                      (default emptyContext (body_context body))) w) = Fulfilled results)
      by (by rewrite Hrun).
    apply translateLoop_fulfilled in Hout as (ms & Hms & Hall). simpl in Hms. subst ms.
    symmetry. by eapply Forall2_length. }
  destruct (formatTranslations_fulfilled segments 0 results w1) as (fs & Hfs & Hsegs & Htrans);
    [lia|].
  rewrite run_bind, Hfs. simpl. eexists. split; [done|].
  exists fs. rewrite drop_0, Hlen, firstn_all in Hsegs.
  split; [|done]. f_equal. symmetry. rewrite <- Hlen. by eapply Forall2_length.
Qed.


Lemma translateVideo_response_aligned_lemma body w n fs :
  outcome (run api (translateVideo body) w) = Fulfilled (Translated n fs) →
  ∃ c l segments results,
    body_targetLanguage body = Some (c :: l)
    ∧ body_segments body = Some segments
    ∧ outcome (run api (translateWithContext segments (c :: l)
                          (default emptyContext (body_context body))) w) = Fulfilled results
    ∧ n = length segments
    ∧ Forall2 formatsSegment segments fs
    ∧ Forall2 formatsTranslation results fs.
Proof.
  destruct (run_translateVideo body w) as (response & -> & Hcase). intros [= ->].
  destruct (body_targetLanguage body) as [[|c l]|]; try done.
  destruct (body_segments body) as [segments|]; [|done].
  destruct (outcome (run api (translateWithContext segments (c :: l) _) w))
    as [results|e] eqn:Hout; [|done].
  destruct Hcase as (fs' & [= -> ->] & Hsegs & Htrans).
  by exists c, l, segments, results.
Qed.

(** In a response with status 200 there is one formatted translation for
    each segment of the request, in the order of the request: the i-th
    carries the id and the text of the i-th segment and the text,
    confidence, label and strategy of the i-th result of the translation
    call. *)
Theorem translateVideo_response_aligned body w n fs :
  outcome (run api (translateVideo body) w) = Fulfilled (Translated n fs) →
  ∃ c l segments results,
    body_targetLanguage body = Some (c :: l)
    ∧ body_segments body = Some segments
    ∧ outcome (run api (translateWithContext segments (c :: l)
                          (default emptyContext (body_context body))) w) = Fulfilled results
    ∧ n = length segments
    ∧ Forall2 formatsSegment segments fs
    ∧ Forall2 formatsTranslation results fs.
Proof. apply translateVideo_response_aligned_lemma. Qed.

Lemma translateVideo_levels body w n fs :
  outcome (run api (translateVideo body) w) = Fulfilled (Translated n fs) →
  Forall formattedLevel fs.
Proof.
  destruct (run_translateVideo body w) as (response & -> & Hcase). intros [= ->].
  destruct (body_targetLanguage body) as [[|c l]|]; try done.
  destruct (body_segments body) as [segments|]; [|done].
  destruct (outcome (run api (translateWithContext segments (c :: l) _) w))
    as [results|e] eqn:Hout; [|done].
  destruct Hcase as (fs' & [= -> ->] & _ & Htrans).
  apply translateLoop_invariant in Hout.
  induction Htrans as [|trans f results fs Hf _ IH]; [constructor|].
  apply Forall_cons in Hout as [(_ & _ & Hlevel) Hout].
  constructor; [|by apply IH].
  destruct Hf as (_ & Hc & _ & _ & Hq & _ & _ & Hs).
  unfold formattedLevel. rewrite Hc, Hq, Hs.
  destruct Hlevel as [[-> ->]|[[[->| ->] ->]|[-> ->]]]; vm_compute; tauto.
Qed.

(** In a response of [translateVideo] the QA status tells the strategy:
    a translation is 'approved' exactly when it was merged in
    [high_agreement] (confidence 0.95), 'needs-review' exactly when the
    arbiter chose it (confidence 0.85), and 'flagged' when the arbiter
    failed (0.75) or the agreement was low (0.70). *)
Theorem status_tells_strategy body w n fs :
  outcome (run api (translateVideo body) w) = Fulfilled (Translated n fs) →
  Forall (fun f =>
            formattedLevel f
            ∧ (f_qaStatus f = approved ↔ f_mergeStrategy f = high_agreement)
            ∧ (f_qaStatus f = needs_review ↔ f_confidence f = 0.85)
            ∧ (f_mergeStrategy f = low_agreement_flagged → f_qaStatus f = flagged)) fs.
Proof.
  intros Hrun%translateVideo_levels. eapply Forall_impl; [exact Hrun|].
  intros f Hf. split; [done|].
  destruct Hf as [(-> & -> & ->)|[(-> & -> & ->)|[(-> & -> & ->)|(-> & -> & ->)]]];
    split_and!; done.
Qed.



End Controller.

(** ** The review screen *)

Lemma generateDisabled_false rows :
  generateDisabled rows = false ↔ Forall (fun s => r_qaStatus s = row_approved) rows.
Proof.
  unfold generateDisabled. induction rows as [|s rows IH]; simpl.
  - split; [constructor|done].
  - rewrite orb_false_iff, IH, Forall_cons, negb_false_iff, bool_decide_eq_true. done.
Qed.

Lemma drawnActive_negb rows : drawnActive rows = negb (generateDisabled rows).
Proof.
  unfold drawnActive, generateDisabled. induction rows as [|s rows IH]; simpl; [done|].
  rewrite IH. by destruct (bool_decide _), (existsb _ rows).
Qed.

Lemma approvedCount_all rows :
  approvedCount rows = length rows ↔ Forall (fun s => r_qaStatus s = row_approved) rows.
Proof.
  unfold approvedCount. induction rows as [|s rows IH]; simpl; [split; [constructor|done]|].
  pose proof (List.filter_length_le
                (fun s => bool_decide (r_qaStatus s = row_approved)) rows) as Hle.
  rewrite Forall_cons. case_bool_decide as Hs; simpl.
  - rewrite <- IH. split; [intros [= ?]; done|intros [_ ->]; done].
  - split; [intros Heq; lia|intros [? _]; done].
Qed.

(** The Generate Audio button is enabled exactly when every row of the
    review screen is approved; that is also when it is drawn active and when
    the counter shows as many approved segments as there are rows.  With no
    row at all the button is enabled. *)
Theorem review_gate rows :
  (generateDisabled rows = false ↔ Forall (fun s => r_qaStatus s = row_approved) rows)
  ∧ drawnActive rows = negb (generateDisabled rows)
  ∧ (approvedCount rows = length rows ↔ generateDisabled rows = false)
  ∧ generateDisabled [] = false.
Proof.
  split; [apply generateDisabled_false|]. split; [apply drawnActive_negb|].
  split; [|done]. by rewrite approvedCount_all, generateDisabled_false.
Qed.

Lemma audioSegments_approve videoId ok i rows :
  audioSegments (handleApproveSegment videoId ok i rows) = audioSegments rows.
Proof.
  unfold handleApproveSegment, audioSegments.
  destruct videoId as [[|c l]|]; [done| |done]. destruct ok; [|done].
  rewrite List.map_map. apply List.map_ext. intros s. by case_bool_decide.
Qed.

(** Approving, with a video id and a successful call, sets the status of
    the rows of that id and keeps the status of rows already approved. *)
Lemma approve_status c l i rows :
  Forall2 (fun s s' => r_qaStatus s' = row_approved
                       ↔ r_id s = i ∨ r_qaStatus s = row_approved)
    rows (handleApproveSegment (Some (c :: l)) true i rows).
Proof.
  simpl. induction rows as [|s rows IH]; simpl; constructor; [|done].
  case_bool_decide; simpl; naive_solver.
Qed.

Lemma approveAll_status c l ids rows :
  Forall2 (fun s s' => r_qaStatus s' = row_approved
                       ↔ r_id s ∈ ids ∨ r_qaStatus s = row_approved)
    rows (approveAll (Some (c :: l)) ids rows).
Proof.
  unfold approveAll. revert rows. induction ids as [|i ids IH]; intros rows.
  - simpl. apply Forall2_same_length_lookup_2; [done|].
    intros k s s' Hs Hs'. rewrite Hs in Hs'. injection Hs' as <-.
    rewrite elem_of_nil. tauto.
  - cbn [fold_left].
    pose proof (approve_status c l i rows) as H1.
    specialize (IH (handleApproveSegment (Some (c :: l)) true i rows)).
    assert (Hids : Forall2 (fun s s' : Row => r_id s' = r_id s) rows
                     (handleApproveSegment (Some (c :: l)) true i rows)).
    { simpl. clear. induction rows as [|s rows IH]; simpl; constructor; [|done].
      by case_bool_decide. }
    revert H1 Hids IH.
    generalize (handleApproveSegment (Some (c :: l)) true i rows).
    generalize (fold_left (fun rows i => handleApproveSegment (Some (c :: l)) true i rows) ids).
    intros f mid H1 Hids IH.
    apply Forall2_same_length_lookup_2.
    { rewrite (Forall2_length _ _ _ H1). by eapply Forall2_length. }
    intros k s s' Hs Hs'.
    destruct (Forall2_lookup_l _ _ _ _ _ H1 Hs) as (m & Hm & Hst).
    pose proof (Forall2_lookup_lr _ _ _ _ _ _ Hids Hs Hm) as Hid.
    pose proof (Forall2_lookup_lr _ _ _ _ _ _ IH Hm Hs') as Hst'.
    rewrite Hst', Hid, Hst, elem_of_cons. naive_solver.
Qed.

(** Approving every segment shown opens the gate: after a successful
    approval for each id of the screen the Generate Audio button is enabled,
    and the approvals change no id, text or time bound of what will be sent
    for synthesis.  An approval that fails, or one made without a video id,
    changes nothing. *)
Theorem approving_all_enables_audio videoId ids rows :
  (∀ c l, videoId = Some (c :: l) →
          (∀ s, s ∈ rows → r_id s ∈ ids) →
          generateDisabled (approveAll videoId ids rows) = false)
  ∧ audioSegments (approveAll videoId ids rows) = audioSegments rows
  ∧ (∀ i, handleApproveSegment videoId false i rows = rows)
  ∧ (∀ ok i, handleApproveSegment None ok i rows = rows).
Proof.
  split_and!.
  - intros c l -> Hids. apply generateDisabled_false.
    pose proof (approveAll_status c l ids rows) as Hall.
    apply Forall_forall. intros s' Hs'.
    apply list_elem_of_lookup in Hs' as [k Hk].
    destruct (Forall2_lookup_r _ _ _ _ _ Hall Hk) as (s & Hs & Hst).
    apply Hst. left. apply Hids. by eapply list_elem_of_lookup_2.
  - unfold approveAll. revert rows. induction ids as [|i ids IH]; intros rows; [done|].
    cbn [fold_left]. by rewrite IH, audioSegments_approve.
  - intros i. unfold handleApproveSegment. by destruct videoId as [[|? ?]|].
  - done.
Qed.

Lemma generateDisabled_true rows :
  generateDisabled rows = true ↔ ∃ s, s ∈ rows ∧ r_qaStatus s ≠ row_approved.
Proof.
  unfold generateDisabled. rewrite List.existsb_exists. split.
  - intros (s & Hin & Hs). exists s. split; [by apply list_elem_of_In|].
    by apply negb_true_iff, bool_decide_eq_false in Hs.
  - intros (s & Hin & Hs). exists s. split; [by apply list_elem_of_In|].
    by apply negb_true_iff, bool_decide_eq_false.
Qed.

(** Editing a translation closes the gate until the segment is approved
    again: after an edit of a segment on the screen the Generate Audio button
    is disabled, whatever the status was; once that segment is approved the
    rows approved before are approved again, and the text sent for synthesis
    is the edited one for that segment and the old one for the others. *)
Theorem edit_needs_new_approval c l i newTranslation rows :
  (∃ s, s ∈ rows ∧ r_id s = i) →
  Forall (fun s => r_qaStatus s = row_approved) rows →
  generateDisabled (handleTranslationEdit i newTranslation rows) = true
  ∧ generateDisabled
      (handleApproveSegment (Some (c :: l)) true i
         (handleTranslationEdit i newTranslation rows)) = false
  ∧ audioSegments
      (handleApproveSegment (Some (c :: l)) true i
         (handleTranslationEdit i newTranslation rows))
    = List.map (fun seg => if bool_decide (id seg = i)
                           then {| id := id seg; text := newTranslation;
                                   startTime := startTime seg; endTime := endTime seg |}
                           else seg)
        (audioSegments rows).
Proof.
  intros (s & Hin & Hid) Hall. split_and!.
  - apply generateDisabled_true.
    exists (withStatus row_edited (withTranslation newTranslation s)).
    split; [|done]. unfold handleTranslationEdit.
    apply list_elem_of_In, List.in_map_iff. exists s.
    split; [by rewrite bool_decide_eq_true_2|by apply list_elem_of_In].
  - apply generateDisabled_false. clear s Hin Hid.
    simpl. unfold handleTranslationEdit. rewrite List.map_map.
    apply List.Forall_map. eapply Forall_impl; [exact Hall|].
    intros s Hs. destruct (bool_decide (r_id s = i)) eqn:Hi; simpl; by rewrite Hi.
  - rewrite audioSegments_approve. unfold audioSegments, handleTranslationEdit.
    rewrite !List.map_map. apply List.map_ext. intros s'. simpl.
    by case_bool_decide.
Qed.

(** A row made from the response needs no review exactly when the
    controller approved the translation. *)
Lemma mappedTranslations_gate transcription fs :
  generateDisabled (mappedTranslations transcription fs) = false
  ↔ Forall (fun f => f_qaStatus f = approved) fs.
Proof.
  rewrite generateDisabled_false. unfold mappedTranslations.
  rewrite List.Forall_map. apply Forall_iff. intros f. simpl.
  by destruct (f_qaStatus f).
Qed.

Lemma findSegment_NoDup transcription segment :
  NoDup (List.map id transcription) → segment ∈ transcription →
  findSegment transcription (id segment) = Some segment.
Proof.
  unfold findSegment. induction transcription as [|t ts IH]; simpl.
  - by intros _ ?%elem_of_nil.
  - intros [Ht Hnd]%NoDup_cons [->|Hin]%elem_of_cons.
    + by rewrite bool_decide_eq_true_2.
    + case_bool_decide as Heq; [|by apply IH]. exfalso. apply Ht. rewrite Heq.
      apply list_elem_of_In, List.in_map. by apply list_elem_of_In.
Qed.

Lemma orNumber_zero x : orNumber (Some x) 0 == x.
Proof.
  simpl. destruct (Qeq_bool x 0) eqn:Hx; [|done].
  apply Qeq_bool_iff in Hx. by rewrite Hx.
Qed.

Lemma audioSegments_timing transcription rest fs :
  NoDup (List.map id transcription) →
  (∀ s, s ∈ rest → s ∈ transcription) →
  Forall2 formatsSegment rest fs →
  Forall2 (fun segment a => id a = id segment
                            ∧ startTime a == startTime segment
                            ∧ endTime a == endTime segment)
    rest (audioSegments (mappedTranslations transcription fs)).
Proof.
  intros Hnd Hin Hsegs. induction Hsegs as [|s f rest fs [Hid _] _ IH]; simpl.
  - constructor.
  - constructor.
    + simpl. rewrite Hid, (findSegment_NoDup _ _ Hnd) by (apply Hin, list_elem_of_here).
      split; [done|]. split; apply orNumber_zero.
    + apply IH. intros s' Hs'. by apply Hin, list_elem_of_further.
Qed.

Section Screen.

Context {caseMapping : CaseMapping} {W : Type} (api : W → Request → Completion * W).

(** Right after a translation, before any review, the Generate Audio button
    is enabled exactly when every segment was merged in [high_agreement]. *)
Theorem unreviewed_audio_needs_high_agreement body w n fs transcription :
  outcome (run api (translateVideo body) w) = Fulfilled (Translated n fs) →
  generateDisabled (mappedTranslations transcription fs) = false
  ↔ Forall (fun f => f_mergeStrategy f = high_agreement) fs.
Proof.
  intros Hrun%translateVideo_levels. rewrite mappedTranslations_gate.
  induction Hrun as [|f fs Hf _ IH]; [done|].
  rewrite !Forall_cons, IH.
  destruct Hf as [(-> & _ & ->)|[(-> & _ & ->)|[(-> & _ & ->)|(-> & _ & ->)]]];
    naive_solver.
Qed.

(** When the segments of the transcription have distinct ids and are sent as
    they are, what the review screen will send for synthesis has, for each
    segment in order, the segment's id and time bounds and the translated
    text of the response. *)
Theorem audio_segments_keep_timing c l context transcription w n fs :
  NoDup (List.map id transcription) →
  outcome (run api (translateVideo {| body_targetLanguage := Some (c :: l);
                                      body_context := context;
                                      body_segments := Some transcription |}) w)
  = Fulfilled (Translated n fs) →
  Forall2 (fun segment a => id a = id segment
                            ∧ startTime a == startTime segment
                            ∧ endTime a == endTime segment)
    transcription (audioSegments (mappedTranslations transcription fs))
  ∧ List.map text (audioSegments (mappedTranslations transcription fs))
    = List.map f_translatedText fs.
Proof.
  intros Hnd Hrun.
  apply translateVideo_response_aligned_lemma in Hrun
    as (c' & l' & segments & results & _ & [= <-] & _ & _ & Hsegs & _).
  split.
  - by apply audioSegments_timing.
  - unfold audioSegments, mappedTranslations. rewrite !List.map_map. done.
Qed.

End Screen.

(** ** The pipeline test script *)

Lemma statusCount_total fs :
  (statusCount approved fs + statusCount needs_review fs + statusCount flagged fs)%nat
  = length fs.
Proof.
  unfold statusCount. induction fs as [|f fs IH]; simpl; [done|].
  destruct (f_qaStatus f); simpl; lia.
Qed.

Lemma sufficientConfidence_level f :
  formattedLevel f →
  sufficientConfidence f = negb (bool_decide (f_qaStatus f = flagged)).
Proof.
  unfold sufficientConfidence.
  intros [(_ & -> & ->)|[(_ & -> & ->)|[(_ & -> & ->)|(_ & -> & ->)]]]; by vm_compute.
Qed.

Section PipelineTest.

Context {caseMapping : CaseMapping} {W : Type} (api : W → Request → Completion * W).

(** The pipeline test synthesizes audio for exactly the translations of the
    response that are not flagged - the approved ones and those that need
    review - and gives every one of them the time bounds 0 and 5; the three
    counts of its quality breakdown add up to the number of translations. *)
Theorem pipeline_test_selection body w n fs :
  outcome (run api (translateVideo body) w) = Fulfilled (Translated n fs) →
  List.filter sufficientConfidence fs
  = List.filter (fun t => negb (bool_decide (f_qaStatus t = flagged))) fs
  ∧ length (scriptAudioSegments fs)
    = (statusCount approved fs + statusCount needs_review fs)%nat
  ∧ (statusCount approved fs + statusCount needs_review fs + statusCount flagged fs)%nat
    = length fs
  ∧ Forall (fun a => startTime a = 0 ∧ endTime a = 5) (scriptAudioSegments fs).
Proof.
  intros Hlevels%translateVideo_levels.
  assert (Hfilter : List.filter sufficientConfidence fs
                    = List.filter (fun t => negb (bool_decide (f_qaStatus t = flagged))) fs).
  { apply List.filter_ext_in. intros f Hf%list_elem_of_In.
    apply sufficientConfidence_level. rewrite Forall_forall in Hlevels. by apply Hlevels. }
  split; [done|]. split; [|split; [apply statusCount_total|]].
  - unfold scriptAudioSegments. rewrite length_map, Hfilter. unfold statusCount.
    clear. induction fs as [|f fs IH]; simpl; [done|].
    destruct (f_qaStatus f); simpl; lia.
  - unfold scriptAudioSegments. apply List.Forall_map, Forall_forall. done.
Qed.

End PipelineTest.

(** ** Translating a list in parts *)

Section Parts.

Context {caseMapping : CaseMapping} {W : Type} (api : W → Request → Completion * W).

(** Translating a list of segments is translating a first part and then the
    rest, starting from the state the API was left in: the results and the
    requests are those of the two calls one after the other, and nothing is
    sent for the rest when the first part raises.  Cutting a list into
    chunks, as [batchTranslate] does, is therefore not observable. *)
Theorem translation_in_parts l1 l2 targetLanguageCode context w :
  run api (translateWithContext (l1 ++ l2) targetLanguageCode context) w
  = let r1 := run api (translateWithContext l1 targetLanguageCode context) w in
    match outcome r1 with
    | Fulfilled ms1 =>
        let r2 := run api (translateWithContext l2 targetLanguageCode context) (world r1) in
        {| outcome := match outcome r2 with
                      | Fulfilled ms2 => Fulfilled (ms1 ++ ms2)
                      | Raised e => Raised e
                      end;
           calls := calls r1 ++ calls r2;
           world := world r2 |}
    | Raised e => {| outcome := Raised e; calls := calls r1; world := world r1 |}
    end.
Proof.
  unfold translateWithContext. rewrite run_translateLoop_app. cbv zeta.
  destruct (run api (translateLoop l1 _ _ []) w) as [[ms1|e] tr w1]; simpl; [|done].
  by rewrite run_translateLoop_acc.
Qed.

End Parts.

(** ** Concrete runs of the further properties *)

(** The metadata of a candidate does not change the selection. *)
Lemma mergeTranslations_reads_texts_only_witness :
  ∃ m m',
    outcome (run scripted
               (mergeTranslations segment1 (candidateA "Hola, ciudadanos.")
                  (candidateB "Hola, ciudadanos.") (js "Spanish")) []) = Fulfilled m
    ∧ outcome (run scripted
                 (mergeTranslations segment1 candidateWithMetadata
                    (candidateB "Hola, ciudadanos.") (js "Spanish")) []) = Fulfilled m'
    ∧ selection m = selection m'
    ∧ comparisonScore m = comparisonScore m'.
Proof.
  apply (mergeTranslations_reads_texts_only scripted segment1
           (candidateA "Hola, ciudadanos.") (candidateB "Hola, ciudadanos.")
           candidateWithMetadata (candidateB "Hola, ciudadanos.") (js "Spanish") []).
  - by vm_compute.
  - done.
Defined.

(** Two segments in high agreement: both results keep the invariant. *)
Lemma results_keep_invariant_witness :
  ∃ results,
    outcome (run scripted (translateWithContext [segment1; segment3] (js "es") emptyContext)
               agreeingScript) = Fulfilled results
    ∧ Forall mergedInvariant results.
Proof.
  eexists.
  assert (Hrun : outcome (run scripted
                            (translateWithContext [segment1; segment3] (js "es") emptyContext)
                            agreeingScript) = Fulfilled _) by (by vm_compute).
  split; [exact Hrun|].
  exact (results_keep_invariant scripted _ _ _ _ _ (or_introl Hrun)).
Defined.

(** Two segments, the first merged after a verification: five requests. *)
Lemma request_count_witness :
  ∃ results,
    outcome (run scripted (translateWithContext [segment1; segment3] (js "es") emptyContext)
               verifyingScript) = Fulfilled results
    ∧ length (calls (run scripted
                       (translateWithContext [segment1; segment3] (js "es") emptyContext)
                       verifyingScript))
      = (2 * length [segment1; segment3] + verifiedCount results)%nat
    ∧ verifiedCount results = 1%nat.
Proof.
  eexists.
  assert (Hrun : outcome (run scripted
                            (translateWithContext [segment1; segment3] (js "es") emptyContext)
                            verifyingScript) = Fulfilled _) by (by vm_compute).
  split; [exact Hrun|].
  split; [exact (proj1 (request_count scripted _ _ _ _ _ Hrun))|by vm_compute].
Defined.

(** Scenario 3: the call stops at the second of three segments. *)
Lemma stops_at_first_failure_witness :
  ∃ before failing later earlier c1 c2,
    [segment1; segment2; segment3] = before ++ failing :: later
    ∧ calls (run scripted
               (translateWithContext [segment1; segment2; segment3] (js "es") emptyContext)
               failingScript)
      = earlier
        ++ [(translateRequest 0.3 failing (js "Spanish")
               (buildContextPrompt emptyContext (js "Spanish")), c1);
            (translateRequest 0.5 failing (js "Spanish")
               (buildContextPrompt emptyContext (js "Spanish")), c2)]
    ∧ throws c1 || throws c2 = true
    ∧ translateRequests earlier
      = flat_map (requestsFor (js "Spanish") (buildContextPrompt emptyContext (js "Spanish")))
          before.
Proof.
  assert (Hrun : outcome (run scripted
                            (translateWithContext [segment1; segment2; segment3] (js "es")
                               emptyContext) failingScript)
                 = Raised (ApiError (js "provider B unavailable"))) by (by vm_compute).
  exact (stops_at_first_failure scripted _ _ _ _ _ Hrun).
Defined.

(** The third request of the verifying run is the verification request of
    the first segment. *)
Lemma requests_share_prompt_witness :
  ∃ segment, segment ∈ [segment1; segment3]
    ∧ (verifyRequest (js "Hello, citizens.") (js "a b c d e") (js "a b c d") (js "Spanish")
       ∈ requestsFor (js "Spanish") (buildContextPrompt emptyContext (js "Spanish")) segment
       ∨ ∃ a b, verifyRequest (js "Hello, citizens.") (js "a b c d e") (js "a b c d")
                  (js "Spanish")
                = verifyRequest (text segment) a b (js "Spanish")).
Proof.
  apply (requests_share_prompt scripted [segment1; segment3] (js "es") emptyContext
           verifyingScript
           (verifyRequest (js "Hello, citizens.") (js "a b c d e") (js "a b c d")
              (js "Spanish"), answer "B")).
  apply (list_elem_of_lookup_2 _ 2). by vm_compute.
Defined.

(** The same words in another order and another case: high agreement. *)
Lemma same_tokens_high_agreement_witness :
  ∃ m, outcome (run scripted
                  (mergeTranslations segment1 (candidateA "Hola, ciudadanos.")
                     (candidateB "CIUDADANOS.   hola,") (js "Spanish")) [])
       = Fulfilled m
     ∧ selection m = (js "Hola, ciudadanos.", js "gpt-4", 0.95, high_agreement)
     ∧ calls (run scripted
                (mergeTranslations segment1 (candidateA "Hola, ciudadanos.")
                   (candidateB "CIUDADANOS.   hola,") (js "Spanish")) []) = [].
Proof.
  apply same_tokens_high_agreement.
  apply similarity_one_or_zero. by vm_compute.
Defined.

(** The white space around a reply is dropped. *)
Lemma provider_result_shape_witness :
  ∃ r, outcome (run scripted
                  (translateWithGPT4 segment1 (js "Spanish")
                     (buildContextPrompt emptyContext (js "Spanish")))
                  [answer "  Hola, ciudadanos. "]) = Fulfilled r
     ∧ translatedText r = js "Hola, ciudadanos."
     ∧ trimmed (translatedText r)
     ∧ Forall isWord (split (translatedText r)).
Proof.
  eexists.
  assert (Hrun : outcome (run scripted
                            (translateWithGPT4 segment1 (js "Spanish")
                               (buildContextPrompt emptyContext (js "Spanish")))
                            [answer "  Hola, ciudadanos. "]) = Fulfilled _) by (by vm_compute).
  destruct (provider_result_shape scripted _ _ _ _ _ (or_introl Hrun))
    as (Htrimmed & _ & Hwords & _).
  split; [exact Hrun|]. split; [by vm_compute|]. split; [exact Htrimmed|].
  apply Hwords. by vm_compute.
Defined.

(** A [null] content and a content of white space: the empty translation,
    approved. *)
Lemma blank_replies_are_approved_witness :
  ∃ m, outcome (run scripted
                  (translateSegment segment1 (js "Spanish")
                     (buildContextPrompt emptyContext (js "Spanish")))
                  [Resolved [None]; answer "   "]) = Fulfilled m
     ∧ selection m = ([], js "gpt-4", 0.95, high_agreement)
     ∧ qaStatus (m_confidence m) = approved.
Proof.
  destruct (blank_replies_are_approved scripted segment1 (js "Spanish")
              (buildContextPrompt emptyContext (js "Spanish"))
              [Resolved [None]; answer "   "])
    as (m & Hm & Hsel & Hqa & _); [by vm_compute|by vm_compute|].
  by exists m.
Defined.

(** A response for two segments. *)
Lemma translateVideo_response_aligned_witness :
  ∃ fs, outcome (run scripted (translateVideo spanishBody) agreeingScript)
        = Fulfilled (Translated 2 fs)
      ∧ Forall2 formatsSegment [segment1; segment3] fs.
Proof.
  eexists.
  assert (Hrun : outcome (run scripted (translateVideo spanishBody) agreeingScript)
                 = Fulfilled (Translated 2 _)) by (by vm_compute).
  split; [exact Hrun|].
  destruct (translateVideo_response_aligned scripted _ _ _ _ Hrun)
    as (c & l & segments & results & _ & [= <-] & _ & _ & Hsegs & _).
  exact Hsegs.
Defined.

Lemma status_tells_strategy_witness :
  ∃ fs, outcome (run scripted (translateVideo spanishBody) verifyingScript)
        = Fulfilled (Translated 2 fs)
      ∧ List.map f_qaStatus fs = [needs_review; approved]
      ∧ Forall formattedLevel fs.
Proof.
  eexists.
  assert (Hrun : outcome (run scripted (translateVideo spanishBody) verifyingScript)
                 = Fulfilled (Translated 2 _)) by (by vm_compute).
  split; [exact Hrun|]. split; [by vm_compute|].
  eapply Forall_impl; [exact (status_tells_strategy scripted _ _ _ _ Hrun)|].
  by intros f [Hf _].
Defined.


(** Approving the rows 1 and 3 of the screen opens the gate. *)
Lemma approving_all_enables_audio_witness :
  generateDisabled reviewRows = true
  ∧ generateDisabled (approveAll (Some (js "video-1")) [1%Z; 3%Z] reviewRows) = false.
Proof.
  split; [by vm_compute|].
  destruct (approving_all_enables_audio (Some (js "video-1")) [1%Z; 3%Z] reviewRows)
    as [Henabled _].
  apply (Henabled 118%N (js "ideo-1")); [done|].
  intros s Hs. unfold reviewRows in Hs.
  rewrite !elem_of_cons, elem_of_nil in Hs. destruct Hs as [->|[->|[]]]; simpl.
  - apply list_elem_of_here.
  - apply list_elem_of_further, list_elem_of_here.
Defined.

(** Correcting the second row of an approved screen, then approving it. *)
Lemma edit_needs_new_approval_witness :
  generateDisabled
    (handleTranslationEdit 3 (js "Gracias.")
       (approveAll (Some (js "video-1")) [3%Z] reviewRows)) = true
  ∧ List.map text
      (audioSegments
         (handleApproveSegment (Some (js "video-1")) true 3
            (handleTranslationEdit 3 (js "Gracias.")
               (approveAll (Some (js "video-1")) [3%Z] reviewRows))))
    = [js "Hola, ciudadanos."; js "Gracias."].
Proof.
  destruct (edit_needs_new_approval 118%N (js "ideo-1") 3 (js "Gracias.")
              (approveAll (Some (js "video-1")) [3%Z] reviewRows))
    as (Hclosed & _ & Haudio).
  - eexists. split; [apply list_elem_of_further, list_elem_of_here|done].
  - apply generateDisabled_false. by vm_compute.
  - split; [exact Hclosed|].
    change (Some (118%N :: js "ideo-1")) with (Some (js "video-1")) in Haudio.
    rewrite Haudio. by vm_compute.
Defined.

Lemma unreviewed_audio_needs_high_agreement_witness :
  ∃ fs, outcome (run scripted (translateVideo spanishBody) agreeingScript)
        = Fulfilled (Translated 2 fs)
      ∧ generateDisabled (mappedTranslations [segment1; segment3] fs) = false.
Proof.
  eexists.
  assert (Hrun : outcome (run scripted (translateVideo spanishBody) agreeingScript)
                 = Fulfilled (Translated 2 _)) by (by vm_compute).
  split; [exact Hrun|].
  apply (unreviewed_audio_needs_high_agreement scripted _ _ _ _ [segment1; segment3] Hrun).
  by repeat constructor.
Defined.

Lemma audio_segments_keep_timing_witness :
  ∃ fs, outcome (run scripted (translateVideo spanishBody) agreeingScript)
        = Fulfilled (Translated 2 fs)
      ∧ List.map text (audioSegments (mappedTranslations [segment1; segment3] fs))
        = [js "Hola, ciudadanos."; js "Gracias."]
      ∧ Forall2 (fun segment a => id a = id segment
                                  ∧ startTime a == startTime segment
                                  ∧ endTime a == endTime segment)
          [segment1; segment3] (audioSegments (mappedTranslations [segment1; segment3] fs)).
Proof.
  eexists.
  assert (Hrun : outcome (run scripted (translateVideo spanishBody) agreeingScript)
                 = Fulfilled (Translated 2 _)) by (by vm_compute).
  split; [exact Hrun|]. split; [by vm_compute|].
  apply (audio_segments_keep_timing scripted 101%N (js "s") None [segment1; segment3]
           agreeingScript 2 _); [|exact Hrun].
  apply (bool_decide_unpack _). by vm_compute.
Defined.

Lemma pipeline_test_selection_witness :
  ∃ fs, outcome (run scripted (translateVideo spanishBody) verifyingScript)
        = Fulfilled (Translated 2 fs)
      ∧ length (scriptAudioSegments fs) = 2%nat
      ∧ (statusCount approved fs + statusCount needs_review fs)%nat = 2%nat.
Proof.
  eexists.
  assert (Hrun : outcome (run scripted (translateVideo spanishBody) verifyingScript)
                 = Fulfilled (Translated 2 _)) by (by vm_compute).
  split; [exact Hrun|].
  destruct (pipeline_test_selection scripted _ _ _ _ Hrun) as (_ & Hlen & _).
  split; [by vm_compute|]. rewrite <- Hlen. by vm_compute.
Defined.
